(** * Shipment records: derived totals and grouped subtotals

    A shallow embedding of the two stages of the repository:
    - [Sheets] follows [src/routes/sheets.py]: [process_data] computes the
      derived fields of each row, [sort_and_subtotal] sorts the rows by
      [ITEM], groups them and sums the numeric fields per group and overall;
    - [DataStructure] follows [data_structure.py], the DataFrame script that
      interleaves the sorted rows with labelled subtotal rows.

    Python values are the scalars a JSON body or a spreadsheet cell can hold.
    An int is unbounded ([Z]); a float is an IEEE binary64 number (the
    primitive [float]).  A raised exception is the result [None]. *)

From Stdlib Require Import ZArith QArith Qcanon Floats Permutation Sorted.
From stdpp Require Import gmap strings list sorting.
From stdpp Require Import pretty.

Local Open Scope Z_scope.

(** ** Python values and the operators the code applies to them *)

Module Py.

Inductive pyval : Type :=
  | VNone
  | VBool (b : bool)
  | VInt (z : Z)
  | VFloat (x : float)
  | VStr (s : string).

(** [bool] is a subclass of [int]: [True] counts as 1 in arithmetic. *)
Definition int_of (v : pyval) : option Z :=
  match v with
  | VBool b => Some (Z.b2z b)
  | VInt z => Some z
  | _ => None
  end.

(** The ints that [float] accepts lie strictly between [-float_limit] and
    [float_limit]: from [2^1024 - 2^970] on, rounding to nearest reaches
    [2^1024], which is no binary64 number. *)
Definition float_limit : Z := Eval vm_compute in 2 ^ 1024 - 2 ^ 970.

(** [float(z)]: the binary64 number nearest to [z], ties to even; an
    OverflowError for an int beyond the range of a float. *)
Definition float_of_Z (z : Z) : option float :=
  if Z.abs z <? float_limit
  then Some (SF2Prim (binary_normalize prec emax z 0 false))
  else None.

#[global] Arguments float_limit : simpl never.
#[global] Arguments float_of_Z : simpl never.

(** The float a number is converted to when it meets a float. *)
Definition float_of (v : pyval) : option float :=
  match v with
  | VBool b => float_of_Z (Z.b2z b)
  | VInt z => float_of_Z z
  | VFloat x => Some x
  | _ => None
  end.

(** [isinstance(v, (int, float))] *)
Definition is_numeric (v : pyval) : bool :=
  match v with
  | VBool _ | VInt _ | VFloat _ => true
  | _ => false
  end.

(** Binary arithmetic on numbers: two ints give an int, otherwise both
    operands are converted to float.  [None] when an operand is no number
    (TypeError) or an int too large for a float (OverflowError). *)
Definition arith (fz : Z → Z → Z) (ff : float → float → float) (a b : pyval)
    : option pyval :=
  match int_of a, int_of b with
  | Some x, Some y => Some (VInt (fz x y))
  | _, _ =>
      match float_of a, float_of b with
      | Some x, Some y => Some (VFloat (ff x y))
      | _, _ => None
      end
  end.

Fixpoint str_repeat (s : string) (n : nat) : string :=
  match n with
  | O => ""
  | S n' => s +:+ str_repeat s n'
  end.

(** [a + b]: numbers add, strings concatenate, anything else is a TypeError. *)
Definition py_add (a b : pyval) : option pyval :=
  match a, b with
  | VStr s, VStr t => Some (VStr (s +:+ t))
  | _, _ => arith Z.add PrimFloat.add a b
  end.

(** [a * b]: numbers multiply, a string times an int repeats the string,
    anything else is a TypeError. *)
Definition py_mul (a b : pyval) : option pyval :=
  match a, b with
  | VStr s, (VBool _ | VInt _) =>
      n ← int_of b; Some (VStr (str_repeat s (Z.to_nat n)))
  | (VBool _ | VInt _), VStr s =>
      n ← int_of a; Some (VStr (str_repeat s (Z.to_nat n)))
  | _, _ => arith Z.mul PrimFloat.mul a b
  end.

(** The exact value of a number: Python compares an int with a float
    without rounding either. *)
Inductive xreal : Type :=
  | XNaN
  | XInf (negative : bool)
  | XFin (q : Qc).

Definition float_val (x : float) : xreal :=
  match Prim2SF x with
  | S754_nan => XNaN
  | S754_infinity s => XInf s
  | S754_zero _ => XFin 0
  | S754_finite s m e =>
      XFin (Q2Qc (inject_Z (cond_Zopp s (Z.pos m)) * Qpower 2 e))
  end.

Definition num_val (v : pyval) : option xreal :=
  match v with
  | VBool b => Some (XFin (Qc_of_Z (Z.b2z b)))
  | VInt z => Some (XFin (Qc_of_Z z))
  | VFloat x => Some (float_val x)
  | _ => None
  end.

Definition xlt (a b : xreal) : bool :=
  match a, b with
  | XNaN, _ | _, XNaN => false
  | XInf s, XInf t => s && negb t
  | XInf s, XFin _ => s
  | XFin _, XInf t => negb t
  | XFin p, XFin q => bool_decide (p < q)%Qc
  end.

Definition xeq (a b : xreal) : bool :=
  match a, b with
  | XInf s, XInf t => Bool.eqb s t
  | XFin p, XFin q => bool_decide (p = q)
  | _, _ => false
  end.

(** [a < b]: defined between two strings (code-point order, which is the
    byte order of the UTF-8 encoding) and between two numbers; a TypeError
    otherwise, also for [None < None]. *)
Definition py_lt (a b : pyval) : option bool :=
  match a, b with
  | VStr s, VStr t => Some (String.ltb s t)
  | _, _ =>
      match num_val a, num_val b with
      | Some x, Some y => Some (xlt x y)
      | _, _ => None
      end
  end.

(** [a == b], as a dict compares keys: numbers by value across
    bool/int/float (a NaN equals nothing), strings by content. *)
Definition py_eq (a b : pyval) : bool :=
  match a, b with
  | VNone, VNone => true
  | VStr s, VStr t => bool_decide (s = t)
  | _, _ =>
      match num_val a, num_val b with
      | Some x, Some y => xeq x y
      | _, _ => false
      end
  end.

(** [sum(xs)]: starts from the int 0 and adds from left to right.  (From
    version 3.12 on CPython adds floats with a compensated sum, whose last
    bits can differ from this fold.) *)
Definition py_sum (xs : list pyval) : option pyval :=
  foldl (λ acc x, a ← acc; py_add a x) (Some (VInt 0)) xs.

End Py.
Import Py.

(** ** The API-facing stage: [src/routes/sheets.py] *)

Module Sheets.

(** A row is a dict from field name to value. *)
Abbreviation record := (gmap string pyval).

(** [row.get(field, default)] *)
Definition get (row : record) (field : string) (dflt : pyval) : pyval :=
  default dflt (row !! field).

(** One guarded assignment of [process_data]:
    [if a in row and b in row: row[dst] = row[a] * row[b]]. *)
Definition derive_field (dst a b : string) (row : record) : option record :=
  match row !! a, row !! b with
  | Some x, Some y => v ← py_mul x y; Some (<[dst := v]> row)
  | _, _ => Some row
  end.

(** The body of the loop of [process_data]. *)
Definition process_row (row : record) : option record :=
  row ← derive_field "TOTAL" "QTY/CTN" "CTNS" row;
  row ← derive_field "TOTAL NW" "CTNS" "NW" row;
  derive_field "TOTAL GW" "CTNS" "GW" row.

Definition process_data (data_list : list record) : option (list record) :=
  mapM process_row data_list.

(** [sorted(xs, key=key)]: the stable ascending sort.  It is written as an
    insertion sort that only asks [key y < key x]; a comparison that raises
    aborts the sort.  Among keys that [<] orders (strings, or numbers other
    than NaN) every stable sort gives this list; where CPython's merge sort
    would put a NaN key is not modelled. *)
Fixpoint insert_by (key : record → pyval) (x : record) (l : list record)
    : option (list record) :=
  match l with
  | [] => Some [x]
  | y :: l' =>
      lt ← py_lt (key y) (key x);
      if lt : bool then (y ::.) <$> insert_by key x l' else Some (x :: y :: l')
  end.

Fixpoint sorted (key : record → pyval) (l : list record)
    : option (list record) :=
  match l with
  | [] => Some []
  | x :: l' => s ← sorted key l'; insert_by key x s
  end.

(** The dict [items], in insertion order:
    [if item not in items: items[item] = []] then
    [items[item].append(row)].  Keys are found by [==], as a dict finds
    them when every key equals itself.  A dict looks for the same object
    first, so that a NaN key, which equals nothing, is found again when it
    is the same object; the model does not follow the identity of objects
    and is exact only for keys that equal themselves. *)
Fixpoint items_append (items : list (pyval * list record))
    (item : pyval) (row : record) : list (pyval * list record) :=
  match items with
  | [] => [(item, [row])]
  | (k, rows) :: rest =>
      if py_eq k item then (k, rows ++ [row]) :: rest
      else (k, rows) :: items_append rest item row
  end.

Definition group_items (data_sorted : list record)
    : list (pyval * list record) :=
  foldl (λ items row, items_append items (get row "ITEM" (VStr "Unknown")) row)
        [] data_sorted.

Definition numeric_fields : list string :=
  ["CTNS"; "TOTAL"; "TOTAL NW"; "TOTAL GW"; "QTY/CTN"; "NW"; "GW"].

(** [sum(row.get(field, 0) for row in rows
         if isinstance(row.get(field), (int, float)))] *)
Definition sum_field (field : string) (rows : list record) : option pyval :=
  py_sum ((λ row, get row field (VInt 0)) <$>
          filter (λ row, is_numeric (get row field VNone) = true) rows).

(** One round of the loop over [numeric_fields]: the field is set when some
    row has it. *)
Definition totals_step (rows : list record) (acc : option record)
    (field : string) : option record :=
  subtotal ← acc;
  if existsb (λ row, bool_decide (is_Some (row !! field))) rows
  then v ← sum_field field rows; Some (<[field := v]> subtotal)
  else Some subtotal.

(** The loop that fills [subtotal] (and, with all the rows, [grand_total]). *)
Definition totals (rows : list record) : option record :=
  foldl (totals_step rows) (Some ∅) numeric_fields.

(** The returned dict [{'data': .., 'subtotals': .., 'grand_total': ..}];
    [subtotals] keeps the insertion order of its keys. *)
Record result : Type := mk_result {
  data : list record;
  subtotals : list (pyval * record);
  grand_total : record
}.

Definition sort_and_subtotal (data_list : list record) : option result :=
  data_sorted ← sorted (λ x, get x "ITEM" (VStr "")) data_list;
  let items := group_items data_sorted in
  subs ← mapM (λ '(item, rows), subtotal ← totals rows; Some (item, subtotal))
              items;
  grand ← totals data_sorted;
  Some (mk_result data_sorted subs grand).

End Sheets.

(** ** The DataFrame script: [data_structure.py] *)

Module DataStructure.

Section frame.

(** The dtype of the numeric columns, its product and the sum pandas takes
    over a column are parameters: the layout of the report does not depend
    on them. *)
Context {num : Type}.
Variable mul : num → num → num.
Variable col_sum : list num → num.

(** A row of the input frame, with the columns of [DATA_HEADERS]. *)
Record row : Type := mk_row {
  ITEM : string;
  MODEL : string;
  QTY_CTN : num;
  CTNS : num;
  TOTAL : num;
  NW : num;
  GW : num;
  TOTAL_NW : num;
  TOTAL_GW : num
}.

(** A row of [subtotals] or of [grand_total]: a label in [ITEM] and the
    four sums. *)
Record totals_row : Type := mk_totals {
  label : string;
  sum_CTNS : num;
  sum_TOTAL : num;
  sum_TOTAL_NW : num;
  sum_TOTAL_GW : num
}.

(** A row of the result frame: an input row, or a totals row, whose other
    columns are NaN after [pd.concat]. *)
Inductive report_row : Type :=
  | DataRow (r : row)
  | TotalsRow (t : totals_row).

(** [df['TOTAL'] = df['QTY/CTN'] * df['CTNS']] and the two weight columns,
    row by row. *)
Definition process_data (df : list row) : list row :=
  (λ r, mk_row (ITEM r) (MODEL r) (QTY_CTN r) (CTNS r)
               (mul (QTY_CTN r) (CTNS r)) (NW r) (GW r)
               (mul (CTNS r) (NW r)) (mul (CTNS r) (GW r))) <$> df.

Definition item_le (a b : row) : Prop := String.le (ITEM a) (ITEM b).

(** [df.sort_values(by='ITEM').reset_index(drop=True)] is a parameter too:
    pandas returns the rows in ascending order of [ITEM] and does not promise
    an order among rows of equal [ITEM] (its default kind is quicksort). *)
Variable sort_values : list row → list row.

(** [Series.unique()]: the values in order of first appearance. *)
Fixpoint unique (xs : list string) : list string :=
  match xs with
  | [] => []
  | x :: xs' => x :: filter (λ y, y ≠ x) (unique xs')
  end.

(** The four sums of a list of rows. *)
Definition sums (lbl : string) (rows : list row) : totals_row :=
  mk_totals lbl (col_sum (CTNS <$> rows)) (col_sum (TOTAL <$> rows))
            (col_sum (TOTAL_NW <$> rows)) (col_sum (TOTAL_GW <$> rows)).

(** [df.groupby('ITEM').agg({...: 'sum'}).reset_index()]: one row per
    distinct [ITEM], in ascending order of [ITEM]. *)
Definition groupby_sum (df : list row) : list totals_row :=
  (λ k, sums k (filter (λ r, ITEM r = k) df))
    <$> merge_sort String.le (unique (ITEM <$> df)).

(** [subtotals['ITEM'] = subtotals['ITEM'] + ' Subtotal'] *)
Definition relabel (t : totals_row) : totals_row :=
  mk_totals (label t +:+ " Subtotal") (sum_CTNS t) (sum_TOTAL t)
            (sum_TOTAL_NW t) (sum_TOTAL_GW t).

Definition sort_and_subtotal (df : list row) : list report_row :=
  let df_sorted := sort_values df in
  let subtotals := relabel <$> groupby_sum df_sorted in
  let grand_total := sums "Grand Total" df_sorted in
  let result_df :=
    foldl (λ result_df item,
             let item_data := filter (λ r, ITEM r = item) df_sorted in
             let sub_total_row :=
               filter (λ t, label t = item +:+ " Subtotal") subtotals in
             (result_df ++ (DataRow <$> item_data))
               ++ (TotalsRow <$> sub_total_row))
          [] (unique (ITEM <$> df_sorted)) in
  result_df ++ [TotalsRow grand_total].

End frame.

Arguments row : clear implicits.
Arguments totals_row : clear implicits.
Arguments report_row : clear implicits.

End DataStructure.

(** ** The vocabulary of the statements *)

Module Terms.
Import Sheets.

(** *** Numbers *)

(** An int or a bool. *)
Definition is_int (v : pyval) : bool :=
  match int_of v with Some _ => true | None => false end.

(** The exact sum of the ints of a list. *)
Definition int_total (xs : list pyval) : Z :=
  foldr (λ v s, default 0 (int_of v) + s) 0 xs.

(** The absolute values of the ints of a list, added up. *)
Definition int_mass (xs : list pyval) : Z :=
  foldr (λ v s, Z.abs (default 0 (int_of v)) + s) 0 xs.

(** A running sum is an int or a float. *)
Definition is_acc (v : pyval) : bool :=
  match v with
  | VInt _ | VFloat _ => true
  | _ => false
  end.

Definition is_float_zero (v : pyval) : bool :=
  match v with
  | VFloat x => match Prim2SF x with S754_zero _ => true | _ => false end
  | _ => false
  end.

(** The same value, where the float zeros [0.0] and [-0.0] count as one. *)
Definition same_number (a b : pyval) : Prop :=
  a = b ∨ (is_float_zero a = true ∧ is_float_zero b = true).

(** *** Field derivation *)

(** A number that [float] accepts: a float, a bool, or an int within the
    range of a float. *)
Definition in_range (v : pyval) : Prop :=
  match v with
  | VBool _ | VFloat _ => True
  | VInt z => Z.abs z < float_limit
  | _ => False
  end.

(** The four source fields, where present, hold such numbers. *)
Definition numeric_sources (row : record) : Prop :=
  ∀ k v, k ∈ ["QTY/CTN"; "CTNS"; "NW"; "GW"] →
         row !! k = Some v → in_range v.

(** What a guarded assignment leaves in [dst]. *)
Definition derived (dst a b : string) (row : record) : option pyval :=
  match row !! a, row !! b with
  | Some x, Some y => py_mul x y
  | _, _ => row !! dst
  end.

(** *** Sorting and grouping *)

(** The sort key and the group key of [sort_and_subtotal]. *)
Definition item_key (row : record) : pyval := get row "ITEM" (VStr "").
Definition group_key (row : record) : pyval := get row "ITEM" (VStr "Unknown").

(** [ITEM] is absent or holds a string. *)
Definition str_item (row : record) : bool :=
  match row !! "ITEM" with
  | None | Some (VStr _) => true
  | Some _ => false
  end.

(** The string a row is ordered by: its [ITEM], or the empty string. *)
Definition sort_key (row : record) : string :=
  match row !! "ITEM" with
  | Some (VStr s) => s
  | _ => ""
  end.

Definition key_le (a b : record) : Prop :=
  String.leb (sort_key a) (sort_key b) = true.

#[global] Instance key_le_dec a b : Decision (key_le a b).
Proof. unfold key_le. apply _. Defined.

(** The rows a group key collects: those whose key equals it. *)
Definition group_rows (item : pyval) (rows : list record) : list record :=
  filter (λ r, py_eq item (group_key r) = true) rows.

Fixpoint distinct_keys (items : list (pyval * list record)) : Prop :=
  match items with
  | [] => True
  | kr :: rest => Forall (λ kr', py_eq kr.1 kr'.1 = false) rest ∧ distinct_keys rest
  end.

(** *** Sums *)

(** The numbers of a field that enter its sum. *)
Definition field_values (field : string) (rows : list record) : list pyval :=
  (λ row, get row field (VInt 0)) <$>
  filter (λ row, is_numeric (get row field VNone) = true) rows.


(** The ints of each numeric field are such that no sum of some of them
    leaves the range of a float. *)
Definition sums_in_range (rows : list record) : Prop :=
  ∀ f, f ∈ numeric_fields → int_mass (field_values f rows) < float_limit.

(** The field holds no float in the row. *)
Definition no_float (field : string) (row : record) : Prop :=
  ∀ x, row !! field ≠ Some (VFloat x).

(** [any(field in row for row in rows)] *)
Definition has_field (field : string) (rows : list record) : bool :=
  existsb (λ row, bool_decide (is_Some (row !! field))) rows.

(** What the loop over the numeric fields leaves in the dict. *)
Definition field_total (field : string) (rows : list record) : option pyval :=
  if bool_decide (field ∈ numeric_fields) && has_field field rows
  then sum_field field rows
  else None.

(** *** The DataFrame report *)

(** Strictly ascending order of keys. *)
Definition str_lt (a b : string) : Prop := String.le a b ∧ a ≠ b.

(** A stable insertion sort on [ITEM], one instance of [sort_values]. *)
Section stable_sort.
Context {num : Type}.
Import DataStructure.

Fixpoint insert_row (x : row num) (l : list (row num)) : list (row num) :=
  match l with
  | [] => [x]
  | y :: l' =>
      if String.ltb (ITEM y) (ITEM x) then y :: insert_row x l'
      else x :: y :: l'
  end.

Definition stable_sort (df : list (row num)) : list (row num) :=
  foldr insert_row [] df.

End stable_sort.

End Terms.
Import Terms.

(** ** Sample rows *)

Module Samples.
Import Sheets.

Definition qty_only : record := {[ "QTY/CTN" := VInt 10 ]}.

Definition qty_ctns : record :=
  {[ "QTY/CTN" := VInt 10; "CTNS" := VInt 5; "NW" := VInt 18;
     "TOTAL" := VInt 1 ]}.

(** The floats 1.4, 1.75, 6.4 and 7.75, written exactly. *)
Definition f_1_4 : float := 0x1.6666666666666p+0%float.
Definition f_1_75 : float := 1.75%float.
Definition f_6_4 : float := 0x1.999999999999ap+2%float.
Definition f_7_75 : float := 7.75%float.

Definition cable_hdmi : record :=
  {[ "ITEM" := VStr "CABLE"; "CTNS" := VInt 10; "TOTAL" := VInt 500;
     "TOTAL NW" := VInt 5; "TOTAL GW" := VInt 6 ]}.

Definition cable_usb : record :=
  {[ "ITEM" := VStr "CABLE"; "CTNS" := VInt 7; "TOTAL" := VInt 700;
     "TOTAL NW" := VFloat f_1_4; "TOTAL GW" := VFloat f_1_75 ]}.

Definition adapter_no_gw : record :=
  {[ "ITEM" := VStr "ADAPTER"; "CTNS" := VInt 4; "NW" := VStr "n/a" ]}.

Definition adapter_gw : record :=
  {[ "ITEM" := VStr "ADAPTER"; "CTNS" := VInt 2; "GW" := VInt 20 ]}.

Definition sample_rows : list record :=
  [cable_hdmi; adapter_no_gw; cable_usb; adapter_gw].

Definition item_model (item model : string) : record :=
  {[ "ITEM" := VStr item; "MODEL" := VStr model ]}.

Definition upload_order : list record :=
  [item_model "B" "x"; item_model "A" "y"; item_model "B" "z"].

(** Three rows whose [NW] floats do not add up exactly: [-2.0**60] alone
    under "A", [2.0**60] and [1.0] under "B". *)
Definition item_nw (item : string) (nw : float) : record :=
  {[ "ITEM" := VStr item; "NW" := VFloat nw ]}.

Definition rounding_rows : list record :=
  [item_nw "A" (-0x1p60)%float; item_nw "B" 0x1p60%float; item_nw "B" 1%float].

(** An int beyond the range of a float next to a float. *)
Definition huge_rows : list record :=
  [ {[ "ITEM" := VStr "A"; "NW" := VInt (10 ^ 400) ]};
    {[ "ITEM" := VStr "A"; "NW" := VFloat 1.5 ]} ].

(** Rows of a frame with integer cells, and a one-line rendering of a report
    row. *)
Definition show (r : DataStructure.report_row Z) : string :=
  match r with
  | DataStructure.DataRow r =>
      DataStructure.ITEM r +:+ "/" +:+ DataStructure.MODEL r
  | DataStructure.TotalsRow t => DataStructure.label t
  end.

Definition frame_row (item model : string) (ctns : Z)
    : DataStructure.row Z :=
  DataStructure.mk_row item model 1 ctns ctns 0 0 0 0.

Definition sample_frame : list (DataStructure.row Z) :=
  [frame_row "B" "x" 2; frame_row "A" "y" 3; frame_row "B" "z" 4].

End Samples.
Import Samples.

(** ** Reading a worksheet: [parse_excel_file] *)

Module Excel.
Import Sheets.

(** The value of a cell as openpyxl hands it over: [None] for an empty
    cell, a bool, an int, a float, a string, or another object (a date, a
    time), of which only the truth value and the [str] matter here. *)
Inductive cell : Type :=
  | CNone
  | CBool (b : bool)
  | CInt (z : Z)
  | CFloat (x : float)
  | CStr (s : string)
  | COther (truth : bool) (text : string).

(** [bool(value)] *)
Definition truthy (value : cell) : bool :=
  match value with
  | CNone => false
  | CBool b => b
  | CInt z => negb (z =? 0)
  | CFloat x => negb (x =? 0)%float
  | CStr s => negb (String.eqb s "")
  | COther truth _ => truth
  end.

(** [bool(v)] for a value of a parsed row. *)
Definition truthy_value (v : pyval) : bool :=
  match v with
  | VNone => false
  | VBool b => b
  | VInt z => negb (z =? 0)
  | VFloat x => negb (x =? 0)%float
  | VStr s => negb (String.eqb s "")
  end.

(** [needle in s], for strings. *)
Fixpoint contains (needle s : string) : bool :=
  String.prefix needle s ||
  match s with
  | "" => false
  | String _ s' => contains needle s'
  end.

(** The headers whose column is converted to numbers. *)
Definition numeric_header (header : string) : bool :=
  bool_decide (header ∈ ["QTY/CTN"; "CTNS"; "NW"; "GW"])
  || contains "QTY" header || contains "WEIGHT" header
  || contains "TOTAL" header.

(** The result of a conversion inside [try: ... except (ValueError,
    TypeError)]: a value, an exception that the clause catches, or another
    exception, which leaves the function. *)
Inductive attempt (A : Type) : Type :=
  | Value (a : A)
  | Caught
  | Uncaught.
Arguments Value {A} a.
Arguments Caught {A}.
Arguments Uncaught {A}.

Definition attempt_map {A B} (f : A → B) (t : attempt A) : attempt B :=
  match t with
  | Value a => Value (f a)
  | Caught => Caught
  | Uncaught => Uncaught
  end.

Section parse.

(** Taken as they are from Python: [str(x)] of a float, [s.strip()], and
    [int(s)] and [float(s)] of a string, which give [None] for the
    ValueError of a string that is no number. *)
Variable float_repr : float → string.
Variable strip : string → string.
Variable int_of_str : string → option Z.
Variable float_of_str : string → option float.

(** [str(value)]; an int prints in decimal, whatever its size (the limit that
    recent versions of Python put on the digits is not modelled). *)
Definition str_of (value : cell) : string :=
  match value with
  | CNone => "None"
  | CBool true => "True"
  | CBool false => "False"
  | CInt z => pretty z
  | CFloat x => float_repr x
  | CStr s => s
  | COther _ text => text
  end.

(** [int(value)]: a float is cut off towards zero; a NaN is a ValueError,
    an infinity an OverflowError, an object that is no number a
    TypeError. *)
Definition to_int (value : cell) : attempt Z :=
  match value with
  | CNone => Caught
  | CBool b => Value (Z.b2z b)
  | CInt z => Value z
  | CFloat x =>
      match Prim2SF x with
      | S754_nan => Caught
      | S754_infinity _ => Uncaught
      | S754_zero _ => Value 0
      | S754_finite s m e => Value (cond_Zopp s (Z.shiftl (Z.pos m) e))
      end
  | CStr s =>
      match int_of_str s with
      | Some z => Value z
      | None => Caught
      end
  | COther _ _ => Caught
  end.

(** [float(value)] *)
Definition to_float (value : cell) : attempt float :=
  match value with
  | CNone => Caught
  | CBool b => Value (if b then 1 else 0)%float
  | CInt z =>
      match float_of_Z z with
      | Some x => Value x
      | None => Uncaught
      end
  | CFloat x => Value x
  | CStr s =>
      match float_of_str s with
      | Some x => Value x
      | None => Caught
      end
  | COther _ _ => Caught
  end.

(** [float(value) if '.' in str(value) else int(value)], with 0 for a
    caught exception; [None] when an exception leaves the function. *)
Definition to_number (value : cell) : option pyval :=
  match (if contains "." (str_of value)
         then attempt_map VFloat (to_float value)
         else attempt_map VInt (to_int value)) with
  | Value v => Some v
  | Caught => Some (VInt 0)
  | Uncaught => None
  end.

(** [row[i]] when [i < len(row) and row[i] is not None]. *)
Definition cell_at (row : list cell) (i : nat) : option cell :=
  match row !! i with
  | Some CNone | None => None
  | Some value => Some value
  end.

(** What is stored under a header, for the cell of its column. *)
Definition field_value (header : string) (value : option cell)
    : option pyval :=
  match value with
  | Some value =>
      if numeric_header header then to_number value
      else Some (VStr (strip (str_of value)))
  | None => Some (if numeric_header header then VInt 0 else VStr "")
  end.

(** [for i, header in enumerate(headers)], from index [i] on. *)
Fixpoint fill_row (row : list cell) (i : nat) (headers : list string)
    (row_data : record) : option record :=
  match headers with
  | [] => Some row_data
  | header :: rest =>
      v ← field_value header (cell_at row i);
      fill_row row (S i) rest (<[header := v]> row_data)
  end.

(** [any(row_data.values())] *)
Definition any_value (row_data : record) : bool :=
  existsb truthy_value (snd <$> map_to_list row_data).

(** The headers: the cells of the first row that are true, as stripped
    strings. *)
Definition headers_of (header_row : list cell) : list string :=
  (λ value, strip (str_of value)) <$> filter (λ value, truthy value = true) header_row.

(** [parse_excel_file], from the loaded worksheet on: its first row and the
    rows after it.  [None] is the ValueError that the function raises for
    every exception inside. *)
Definition parse_excel_file (header_row : list cell) (rows : list (list cell))
    : option (list record) :=
  let headers := headers_of header_row in
  if bool_decide (headers = []) then None
  else
    data ← mapM (λ row, fill_row row 0 headers ∅)
                (filter (λ row, existsb truthy row = true) rows);
    Some (filter (λ row_data, any_value row_data = true) data).

End parse.

End Excel.

(** ** The request handlers for sheet data *)

Module Routes.
Import Sheets Excel.

(** What a handler answers: a body as JSON with status 200, an error
    message with status 400, or status 500 with the text of a raised
    exception, which is not modelled. *)
Inductive response (A : Type) : Type :=
  | Ok (body : A)
  | Rejected (error : string)
  | Failed.
Arguments Ok {A} body.
Arguments Rejected {A} error.
Arguments Failed {A}.

(** The last lines of the handlers, inside their [try]:
    [processed_data = process_data(sheets_data.copy(), header_config)] and
    [result = sort_and_subtotal(processed_data, header_config)].  Neither
    function looks at [header_config]. *)
Definition report_of (sheets_data : list record) : response result :=
  match processed_data ← process_data sheets_data;
        sort_and_subtotal processed_data with
  | Some result => Ok result
  | None => Failed
  end.

(** [process_sheets_data], for a JSON body whose ['sheets_data'] is a list
    of rows; [None] stands for a body that is empty or has no
    ['sheets_data']. *)
Definition process_sheets_data (sheets_data : option (list record))
    : response result :=
  match sheets_data with
  | None => Rejected "No sheets_data provided"
  | Some [] => Rejected "Empty sheets_data provided"
  | Some sheets_data => report_of sheets_data
  end.

(** [s.endswith(suffix)] *)
Fixpoint ends_with (suffix s : string) : bool :=
  String.eqb suffix s ||
  match s with
  | "" => false
  | String _ s' => ends_with suffix s'
  end.

Section upload.
Variable float_repr : float → string.
Variable strip : string → string.
Variable int_of_str : string → option Z.
Variable float_of_str : string → option float.

(** [s.lower()] *)
Variable lower : string → string.

(** [get_file_headers], for the uploaded file, if any: its name and the
    first row of the active sheet, or [None] when loading raises. *)
Definition get_file_headers (file : option (string * option (list cell)))
    : response (list string) :=
  match file with
  | None => Rejected "No file uploaded"
  | Some (filename, header_row) =>
      if String.eqb filename "" then Rejected "No file selected"
      else if negb (ends_with ".xlsx" (lower filename)
                    || ends_with ".xls" (lower filename))
      then Rejected "Please upload an Excel file (.xlsx or .xls)"
      else
        match header_row with
        | Some header_row => Ok (headers_of float_repr strip header_row)
        | None => Failed
        end
  end.

(** [upload_excel_file], for the uploaded file, if any: its name and what
    openpyxl loads from it, the first row of the active sheet and the rows
    after it, or [None] when loading raises. *)
Definition upload_excel_file
    (file : option (string * option (list cell * list (list cell))))
    : response result :=
  match file with
  | None => Rejected "No file uploaded"
  | Some (filename, sheet) =>
      if String.eqb filename "" then Rejected "No file selected"
      else if negb (ends_with ".xlsx" (lower filename)
                    || ends_with ".xls" (lower filename))
      then Rejected "Please upload an Excel file (.xlsx or .xls)"
      else
        match sheet ≫= (λ '(header_row, rows),
                parse_excel_file float_repr strip int_of_str float_of_str
                                 header_row rows) with
        | None => Failed
        | Some [] => Rejected "No valid data found in Excel file"
        | Some sheets_data => report_of sheets_data
        end
  end.

End upload.

(** The rows of [get_sample_data]. *)
Definition sample_row (item model : string) (qty ctns : Z) (nw gw : pyval)
    : record :=
  {[ "ITEM" := VStr item; "MODEL" := VStr model; "QTY/CTN" := VInt qty;
     "CTNS" := VInt ctns; "NW" := nw; "GW" := gw ]}.

Definition sample_data : list record :=
  [ sample_row "POWER SUPPLY" "Power supply" 10 5 (VInt 18) (VInt 20);
    sample_row "POWER SUPPLY" "12V400W" 10 3 (VInt 18) (VInt 20);
    sample_row "CABLE" "HDMI Cable" 50 10
               (VFloat 0.5) (VFloat 0x1.3333333333333p-1);
    sample_row "CABLE" "USB Cable" 100 7
               (VFloat 0x1.999999999999ap-3) (VFloat 0.25);
    sample_row "ADAPTER" "AC Adapter" 20 4 (VFloat 2.5) (VFloat 3) ].

Definition get_sample_data : response result := report_of sample_data.

End Routes.

(** ** The document handlers *)

Module Documents.




Section documents.

(** The values of the JSON body, with [bool(v)] and, for a string, its
    text ([None] for a value that is no string). *)
Context {V : Type}.
Variable truthy : V → bool.
Variable as_str : V → option string.

(** [s.lower()] and [datetime.now().isoformat()] *)
Variable lower : string → string.
Variable now : string.

(** A value of the answered JSON object. *)
Inductive entry : Type :=
  | Text (s : string)
  | Texts (l : list string)
  | Flag (b : bool)
  | Echo (v : V).

(** What a handler answers: a JSON object with status 200, an error message
    with status 400, or status 500 for a raised exception. *)
Inductive answer : Type :=
  | Accepted (body : gmap string entry)
  | Refused (error : string)
  | Failed.

(** [field not in data or not data[field]] *)
Definition lacks (data : gmap string V) (field : string) : bool :=
  match data !! field with
  | Some v => negb (truthy v)
  | None => true
  end.

(** The loop over [required_fields]: the field it returns the 400 for. *)
Fixpoint first_missing (required_fields : list string) (data : gmap string V)
    : option string :=
  match required_fields with
  | [] => None
  | field :: rest =>
      if lacks data field then Some field else first_missing rest data
  end.

(** The handlers share their shape: the loop, then the answer built from
    [data[...]], where a missing key would be a KeyError. *)
Definition answer_with (required_fields : list string)
    (result : gmap string V → option (gmap string entry))
    (data : gmap string V) : answer :=
  match first_missing required_fields data with
  | Some field => Refused ("Missing required field: " +:+ field)
  | None =>
      match result data with
      | Some body => Accepted body
      | None => Failed
      end
  end.

Definition process_proforma_invoice : gmap string V → answer :=
  answer_with ["piNumber"; "piDate"] (λ data,
    pi_number ← data !! "piNumber";
    pi_date ← data !! "piDate";
    Some {[ "document_type" := Text "Pro forma Invoice";
            "pi_number" := Echo pi_number;
            "pi_date" := Echo pi_date;
            "created_at" := Text now;
            "status" := Text "processed" ]}).

Definition process_lc_document : gmap string V → answer :=
  answer_with ["lcNumber"; "lcDate"] (λ data,
    lc_number ← data !! "lcNumber";
    lc_date ← data !! "lcDate";
    Some {[ "document_type" := Text "LC Document";
            "lc_number" := Echo lc_number;
            "lc_date" := Echo lc_date;
            "created_at" := Text now;
            "status" := Text "processed" ]}).

Definition process_packing_list : gmap string V → answer :=
  answer_with ["ciNumber"; "ciDate"; "lcNumber"; "blNumber"] (λ data,
    ci_number ← data !! "ciNumber";
    ci_date ← data !! "ciDate";
    lc_number ← data !! "lcNumber";
    bl_number ← data !! "blNumber";
    Some {[ "document_type" := Text "Packing List";
            "ci_number" := Echo ci_number;
            "ci_date" := Echo ci_date;
            "lc_number" := Echo lc_number;
            "bl_number" := Echo bl_number;
            "created_at" := Text now;
            "status" := Text "processed" ]}).

Definition process_commercial_invoice : gmap string V → answer :=
  answer_with ["ciNumber"; "ciDate"; "lcNumber"; "blNumber"] (λ data,
    ci_number ← data !! "ciNumber";
    ci_date ← data !! "ciDate";
    lc_number ← data !! "lcNumber";
    bl_number ← data !! "blNumber";
    Some {[ "document_type" := Text "Commercial Invoice";
            "ci_number" := Echo ci_number;
            "ci_date" := Echo ci_date;
            "lc_number" := Echo lc_number;
            "bl_number" := Echo bl_number;
            "created_at" := Text now;
            "status" := Text "processed" ]}).

Definition process_value_sheet : gmap string V → answer :=
  answer_with ["lcNumber"; "beNumber"; "beDate"] (λ data,
    lc_number ← data !! "lcNumber";
    be_number ← data !! "beNumber";
    be_date ← data !! "beDate";
    Some {[ "document_type" := Text "Value Sheet";
            "lc_number" := Echo lc_number;
            "be_number" := Echo be_number;
            "be_date" := Echo be_date;
            "created_at" := Text now;
            "status" := Text "processed" ]}).

Definition process_loading_list : gmap string V → answer :=
  answer_with ["lcNumber"; "loadingDate"; "loadingPort"; "destinationPort";
               "containerNumber"; "totalCarton"; "totalWeight"] (λ data,
    lc_number ← data !! "lcNumber";
    loading_date ← data !! "loadingDate";
    loading_port ← data !! "loadingPort";
    destination_port ← data !! "destinationPort";
    container_number ← data !! "containerNumber";
    total_carton ← data !! "totalCarton";
    total_weight ← data !! "totalWeight";
    Some {[ "document_type" := Text "Loading List";
            "lc_number" := Echo lc_number;
            "loading_date" := Echo loading_date;
            "loading_port" := Echo loading_port;
            "destination_port" := Echo destination_port;
            "container_number" := Echo container_number;
            "total_carton" := Echo total_carton;
            "total_weight" := Echo total_weight;
            "created_at" := Text now;
            "status" := Text "processed" ]}).


End documents.

Arguments entry : clear implicits.
Arguments answer : clear implicits.

End Documents.

(** ** More vocabulary *)

Module MoreTerms.
Import Sheets.

(** An int or a float, but no bool. *)
Definition is_number (v : pyval) : bool :=
  match v with
  | VInt _ | VFloat _ => true
  | _ => false
  end.

Definition is_text (v : pyval) : bool :=
  match v with
  | VStr _ => true
  | _ => false
  end.

(** [ITEM] is present and holds a string. *)
Definition named_item (row : record) : bool :=
  match row !! "ITEM" with
  | Some (VStr _) => true
  | _ => false
  end.

(** The product of [QTY/CTN] and [CTNS] of a row that holds ints there. *)
Definition units (row : record) : Z :=
  match row !! "QTY/CTN", row !! "CTNS" with
  | Some qty, Some ctns => default 0 (int_of qty) * default 0 (int_of ctns)
  | _, _ => 0
  end.

Definition int_units (row : record) : Prop :=
  ∃ qty ctns, row !! "QTY/CTN" = Some (VInt qty) ∧
              row !! "CTNS" = Some (VInt ctns).

(** The sum of the products of some rows. *)
Definition total_units (rows : list record) : Z :=
  foldr (λ row s, units row + s) 0 rows.

(** No int of the rows reaches [2^64]. *)
Definition small_int (v : pyval) : bool :=
  match v with
  | VInt z => bool_decide (Z.abs z < 2 ^ 64)
  | _ => true
  end.

Definition small_ints (rows : list record) : Prop :=
  Forall (map_Forall (λ _ v, small_int v = true)) rows.

(** A parsed row: numbers under the numeric headers, strings elsewhere. *)
Definition typed_row (row : record) : Prop :=
  ∀ k v, row !! k = Some v →
    if Excel.numeric_header k then is_number v = true else is_text v = true.


(** The six document handlers, each with the document type it answers and,
    for every required field, the key the field is answered under. *)
Definition document_handlers {V} (truthy : V → bool) (now : string)
    : list ((gmap string V → Documents.answer V)
            * string * list (string * string)) :=
  [ (Documents.process_proforma_invoice truthy now, "Pro forma Invoice",
     [("piNumber", "pi_number"); ("piDate", "pi_date")]);
    (Documents.process_lc_document truthy now, "LC Document",
     [("lcNumber", "lc_number"); ("lcDate", "lc_date")]);
    (Documents.process_packing_list truthy now, "Packing List",
     [("ciNumber", "ci_number"); ("ciDate", "ci_date");
      ("lcNumber", "lc_number"); ("blNumber", "bl_number")]);
    (Documents.process_commercial_invoice truthy now, "Commercial Invoice",
     [("ciNumber", "ci_number"); ("ciDate", "ci_date");
      ("lcNumber", "lc_number"); ("blNumber", "bl_number")]);
    (Documents.process_value_sheet truthy now, "Value Sheet",
     [("lcNumber", "lc_number"); ("beNumber", "be_number");
      ("beDate", "be_date")]);
    (Documents.process_loading_list truthy now, "Loading List",
     [("lcNumber", "lc_number"); ("loadingDate", "loading_date");
      ("loadingPort", "loading_port");
      ("destinationPort", "destination_port");
      ("containerNumber", "container_number");
      ("totalCarton", "total_carton"); ("totalWeight", "total_weight")]) ].

(** What one document handler answers, for the document type and the keys
    of its entry in [document_handlers]: with status 200 every required
    field, which the body has with a true value, under its key; with
    status 400 the first required field that the body lacks; never
    status 500. *)
Definition answers_as {V} (truthy : V → bool) (now : string)
    (handler : gmap string V → Documents.answer V) (doc_type : string)
    (fields : list (string * string)) : Prop :=
  ∀ data,
    match handler data with
    | Documents.Accepted body =>
        Forall (λ '(field, key), ∃ v, data !! field = Some v ∧
                  truthy v = true ∧ body !! key = Some (Documents.Echo v))
               fields ∧
        body !! "document_type" = Some (Documents.Text doc_type) ∧
        body !! "created_at" = Some (Documents.Text now) ∧
        body !! "status" = Some (Documents.Text "processed")
    | Documents.Refused error =>
        ∃ pre field post, fields.*1 = pre ++ field :: post ∧
          Forall (λ f, Documents.lacks truthy data f = false) pre ∧
          Documents.lacks truthy data field = true ∧
          error = "Missing required field: " +:+ field
    | Documents.Failed => False
    end.

(** The input rows among the rows of a DataFrame report. *)
Definition data_rows {num} (report : list (DataStructure.report_row num))
    : list (DataStructure.row num) :=
  omap (λ r, match r with
             | DataStructure.DataRow r => Some r
             | DataStructure.TotalsRow _ => None
             end) report.

(** The derived columns of a row hold the products of its source columns. *)
Definition derived_row {num} (mul : num → num → num)
    (r : DataStructure.row num) : Prop :=
  DataStructure.TOTAL r = mul (DataStructure.QTY_CTN r) (DataStructure.CTNS r) ∧
  DataStructure.TOTAL_NW r = mul (DataStructure.CTNS r) (DataStructure.NW r) ∧
  DataStructure.TOTAL_GW r = mul (DataStructure.CTNS r) (DataStructure.GW r).

(** A cell that stops the parse: an infinite float whose [str] has no
    ['.'], so that [int] is called on it. *)
Definition overflowing (float_repr : float → string) (value : Excel.cell)
    : Prop :=
  ∃ x s, value = Excel.CFloat x ∧ Prim2SF x = S754_infinity s ∧
         Excel.contains "." (float_repr x) = false.

End MoreTerms.

(** ** More samples *)

Module MoreSamples.
Import Sheets Excel.

(** A sheet with a blank header cell and a blank row. *)
Definition sheet_header : list cell :=
  [CStr "ITEM"; CNone; CStr "CTNS"; CStr "NW"].

Definition sheet_rows : list (list cell) :=
  [ [CStr "B"; CInt 3; CFloat 1.5];
    [CNone; CNone; CNone];
    [CStr "A"; CInt 2; CInt 4] ].

(** Instances of the conversions that are parameters, for evaluating a
    statement on the sheet above: every float prints with a ['.'], nothing
    is stripped, no string is a number, no letter is upper case. *)
Definition repr_dotted (x : float) : string := "0.5".
Definition strip_nothing (s : string) : string := s.
Definition parse_no_int (s : string) : option Z := None.
Definition parse_no_float (s : string) : option float := None.
Definition lower_nothing (s : string) : string := s.

(** The rows of the sheet, as they are parsed. *)
Definition sheet_data : list record :=
  [ {[ "ITEM" := VStr "B"; "CTNS" := VInt 3; "NW" := VFloat 1.5 ]};
    {[ "ITEM" := VStr "A"; "CTNS" := VInt 2; "NW" := VInt 4 ]} ].

Definition parse_sample : option (list record) :=
  parse_excel_file repr_dotted strip_nothing parse_no_int parse_no_float
                   sheet_header sheet_rows.

End MoreSamples.

(** ** Facts about the operators *)

Module PyFacts.

(** *** Equality of keys *)

Lemma xeq_sym a b : xeq a b = xeq b a.
Proof.
  destruct a as [|s|p], b as [|t|q]; simpl; try done.
  - by destruct s, t.
  - apply bool_decide_ext. split; congruence.
Qed.

Lemma xeq_trans a b c : xeq a b = true → xeq b c = true → xeq a c = true.
Proof.
  destruct a as [|s|p], b as [|t|q], c as [|u|r]; simpl; try done.
  - intros ->%Bool.eqb_prop ->%Bool.eqb_prop. apply Bool.eqb_reflx.
  - rewrite !bool_decide_eq_true. congruence.
Qed.

Lemma py_eq_sym a b : py_eq a b = py_eq b a.
Proof.
  unfold py_eq.
  destruct a, b; try done; try (apply bool_decide_ext; split; congruence);
    destruct (num_val _), (num_val _); try done; apply xeq_sym.
Qed.

Lemma py_eq_trans a b c : py_eq a b = true → py_eq b c = true → py_eq a c = true.
Proof.
  unfold py_eq.
  destruct a, b, c; try done;
    try (rewrite !bool_decide_eq_true; congruence);
    repeat (destruct (num_val _); try done); apply xeq_trans.
Qed.

Lemma py_eq_str s v : py_eq (VStr s) v = true → v = VStr s.
Proof. destruct v; simpl; try done. rewrite bool_decide_eq_true. congruence. Qed.

Lemma py_eq_str_refl s : py_eq (VStr s) (VStr s) = true.
Proof. simpl. by rewrite bool_decide_eq_true. Qed.

(** *** Conversion to float *)


Lemma float_of_Z_fits z : Z.abs z < float_limit → is_Some (float_of_Z z).
Proof.
  intros H. unfold float_of_Z.
  destruct (Z.ltb_spec (Z.abs z) float_limit); [by eexists|lia].
Qed.

Lemma float_of_in_range v : in_range v → is_Some (float_of v).
Proof.
  destruct v as [|b|z|x|s]; cbn [in_range float_of].
  - intros [].
  - intros _. destruct b; vm_compute; by eexists.
  - apply float_of_Z_fits.
  - by eexists.
  - intros [].
Qed.

Lemma float_limit_eq : float_limit = 2 ^ 1024 - 2 ^ 970.
Proof. vm_compute. reflexivity. Qed.

Lemma float_limit_pos : 0 < float_limit.
Proof. vm_compute. reflexivity. Qed.

(** *** Sums of ints *)

Lemma int_total_app xs ys : int_total (xs ++ ys) = int_total xs + int_total ys.
Proof. induction xs as [|x xs IH]; simpl; [done|]. rewrite IH. lia. Qed.

Lemma int_total_perm xs ys : xs ≡ₚ ys → int_total xs = int_total ys.
Proof. induction 1; simpl; lia. Qed.

Lemma int_mass_nonneg xs : 0 ≤ int_mass xs.
Proof. induction xs as [|x xs IH]; simpl; lia. Qed.

Lemma int_mass_app xs ys : int_mass (xs ++ ys) = int_mass xs + int_mass ys.
Proof. induction xs as [|x xs IH]; simpl; [done|]. rewrite IH. lia. Qed.

Lemma int_mass_perm xs ys : xs ≡ₚ ys → int_mass xs = int_mass ys.
Proof. induction 1; simpl; lia. Qed.

Lemma foldl_add_None xs :
  foldl (λ acc x, a ← acc; py_add a x) None xs = None.
Proof. by induction xs. Qed.

Lemma py_sum_ints_from z xs :
  forallb is_int xs = true →
  foldl (λ acc x, a ← acc; py_add a x) (Some (VInt z)) xs
  = Some (VInt (z + int_total xs)).
Proof.
  revert z. induction xs as [|x xs IH]; intros z; simpl.
  - intros _. by rewrite Z.add_0_r.
  - intros [Hx Hxs]%andb_true_iff. unfold is_int in Hx.
    destruct x as [|b|y|y|s]; try done;
      cbn [mbind option_bind py_add arith int_of];
      rewrite (IH _ Hxs); do 2 f_equal; simpl; lia.
Qed.

(** A sum of ints and bools is the int that is their exact sum. *)
Lemma py_sum_ints xs :
  forallb is_int xs = true → py_sum xs = Some (VInt (int_total xs)).
Proof. intros H. unfold py_sum. by rewrite (py_sum_ints_from 0 xs H). Qed.

(** *** Sums of numbers *)

Lemma py_add_is_acc a b v :
  is_acc a = true → py_add a b = Some v → is_acc v = true.
Proof.
  destruct a as [| |z|x|], b as [|b|y|y|]; try done; unfold py_add, arith;
    cbn [int_of float_of]; try (by intros _ [= <-]);
    destruct (float_of_Z _); try done; by intros _ [= <-].
Qed.

(** A sum of numbers raises only when a running sum of ints that has left
    the range of a float meets a float. *)
Lemma py_sum_from a xs :
  Forall (λ x, is_numeric x = true) xs →
  match a with
  | VInt z => Z.abs z + int_mass xs < float_limit
  | VFloat _ => int_mass xs < float_limit
  | _ => False
  end →
  is_Some (foldl (λ acc x, a ← acc; py_add a x) (Some a) xs).
Proof.
  intros Hxs. revert a.
  induction Hxs as [|x xs Hx _ IH]; intros a Ha; [by eexists|].
  pose proof (int_mass_nonneg xs) as Hpos.
  cbn [foldl mbind option_bind].
  assert (∃ a', py_add a x = Some a' ∧
                match a' with
                | VInt z => Z.abs z + int_mass xs < float_limit
                | VFloat _ => int_mass xs < float_limit
                | _ => False
                end) as (a' & -> & Ha'); [|by apply IH].
  cbn [int_mass foldr] in Ha. fold (int_mass xs) in Ha.
  destruct a as [| |z|u|]; try done;
    destruct x as [|b|y|y|]; try done; unfold py_add, arith;
    cbn [int_of float_of default id] in *.
  - eexists. split; [done|]. destruct b; simpl in *; lia.
  - eexists. split; [done|]. cbv beta iota. lia.
  - destruct (float_of_Z_fits z) as [w ->]; [lia|].
    eexists. split; [done|]. cbv beta iota. lia.
  - destruct (float_of_Z_fits (Z.b2z b)) as [w ->]; [destruct b; simpl in *; lia|].
    eexists. split; [done|]. cbv beta iota. destruct b; simpl in *; lia.
  - destruct (float_of_Z_fits y) as [w ->]; [lia|].
    eexists. split; [done|]. cbv beta iota. lia.
  - eexists. split; [done|]. cbv beta iota. lia.
Qed.

Lemma py_sum_numeric xs :
  Forall (λ x, is_numeric x = true) xs → int_mass xs < float_limit →
  is_Some (py_sum xs).
Proof. intros Hxs Hm. by apply (py_sum_from (VInt 0) xs Hxs). Qed.

(** *** The float zero *)


Lemma same_number_refl a : same_number a a.
Proof. by left. Qed.








(** The order on strings is the lexicographic order of [String.compare]. *)
Lemma ascii_compare_refl c : Ascii.compare c c = Eq.
Proof. unfold Ascii.compare. apply N.compare_refl. Qed.

Lemma ascii_compare_lt_trans a b c :
  Ascii.compare a b = Lt → Ascii.compare b c = Lt → Ascii.compare a c = Lt.
Proof. unfold Ascii.compare. rewrite !N.compare_lt_iff. lia. Qed.

Lemma str_compare_refl s : String.compare s s = Eq.
Proof. induction s as [|c s IH]; simpl; [done|]. by rewrite ascii_compare_refl. Qed.

Lemma str_compare_lt_trans s t u :
  String.compare s t = Lt → String.compare t u = Lt → String.compare s u = Lt.
Proof.
  revert t u. induction s as [|a s IH]; intros [|b t] [|c u]; simpl; try done.
  destruct (Ascii.compare a b) eqn:Hab, (Ascii.compare b c) eqn:Hbc; try done.
  - apply Ascii.compare_eq_iff in Hab, Hbc. subst.
    rewrite ascii_compare_refl. apply IH.
  - apply Ascii.compare_eq_iff in Hab. subst. by rewrite Hbc.
  - apply Ascii.compare_eq_iff in Hbc. subst. by rewrite Hab.
  - by rewrite (ascii_compare_lt_trans _ _ _ Hab Hbc).
Qed.

Lemma str_ltb_false_leb s t : String.ltb s t = false ↔ String.leb t s = true.
Proof.
  unfold String.ltb, String.leb. rewrite (String.compare_antisym t s).
  by destruct (String.compare s t).
Qed.

Lemma str_ltb_leb s t : String.ltb s t = true → String.leb s t = true.
Proof. unfold String.ltb, String.leb. by destruct (String.compare s t). Qed.

Lemma str_ltb_ne s t : String.ltb s t = true → s ≠ t.
Proof.
  unfold String.ltb. intros H ->. by rewrite str_compare_refl in H.
Qed.

Lemma str_leb_refl s : String.leb s s = true.
Proof. unfold String.leb. by rewrite str_compare_refl. Qed.

Lemma str_leb_trans s t u :
  String.leb s t = true → String.leb t u = true → String.leb s u = true.
Proof.
  unfold String.leb.
  destruct (String.compare s t) eqn:Hst; [|  |done];
    destruct (String.compare t u) eqn:Htu; try done; intros _ _.
  - apply String.compare_eq_iff in Hst, Htu. subst. by rewrite str_compare_refl.
  - apply String.compare_eq_iff in Hst. subst. by rewrite Htu.
  - apply String.compare_eq_iff in Htu. subst. by rewrite Hst.
  - by rewrite (str_compare_lt_trans _ _ _ Hst Htu).
Qed.

(** *** The operators on some values *)

(** The largest int that [float] accepts becomes the largest float; the
    next one would round to [2^1024]. *)
Example float_limit_sharp :
  float_of_Z (float_limit - 1) = Some 0x1.fffffffffffffp+1023%float ∧
  float_of_Z (- (float_limit - 1)) = Some (-0x1.fffffffffffffp+1023)%float ∧
  SF2Prim (binary_normalize prec emax float_limit 0 false) = infinity ∧
  float_of_Z float_limit = None.
Proof. repeat split; vm_compute; reflexivity. Qed.

(** An int and a float are compared by their exact values; a number and a
    string are not comparable. *)
Example comparisons :
  py_lt (VFloat 0x1p53) (VInt (2 ^ 53 + 1)) = Some true ∧
  py_lt (VInt (2 ^ 53 + 1)) (VFloat 0x1p53) = Some false ∧
  py_eq (VInt 1) (VFloat 1) = true ∧
  py_eq (VBool true) (VInt 1) = true ∧
  py_eq (VFloat nan) (VFloat nan) = false ∧
  py_lt (VInt 1) (VStr "A") = None ∧
  py_lt VNone VNone = None.
Proof. repeat split; vm_compute; reflexivity. Qed.

(** [sum([True, 2])] is 3, [sum([5, 1.4])] is the float nearest to 6.4,
    [sum([-0.0])] is 0.0; a string times [True] is the string, a string
    times a float is a TypeError. *)
Example sums_and_products :
  py_sum [VBool true; VInt 2] = Some (VInt 3) ∧
  py_sum [VInt 5; VFloat 0x1.6666666666666p+0]
    = Some (VFloat 0x1.999999999999ap+2) ∧
  py_sum [VFloat (-0)] = Some (VFloat 0) ∧
  py_mul (VStr "ab") (VBool true) = Some (VStr "ab") ∧
  py_mul (VStr "ab") (VFloat 2) = None.
Proof. repeat split; vm_compute; reflexivity. Qed.



End PyFacts.

(** ** Field derivation: [process_data] *)

Module DeriveFacts.
Import Sheets PyFacts.

Lemma py_mul_numeric a b : in_range a → in_range b → is_Some (py_mul a b).
Proof.
  intros [x Hx]%float_of_in_range [y Hy]%float_of_in_range.
  destruct a as [|c|z|u|], b as [|d|w|v|]; try done; unfold py_mul, arith;
    cbn [int_of]; try (by eexists); rewrite Hx, Hy; by eexists.
Qed.

Lemma derive_field_lookup dst a b row row' k :
  derive_field dst a b row = Some row' →
  row' !! k = if decide (k = dst) then derived dst a b row else row !! k.
Proof.
  unfold derive_field, derived.
  destruct (row !! a) as [x|], (row !! b) as [y|]; simpl;
    try (intros [= <-]; by case_decide; subst).
  destruct (py_mul x y) as [v|]; simpl; [|done]. intros [= <-].
  rewrite lookup_insert. repeat case_decide; by subst.
Qed.

Lemma derive_field_numeric dst a b row :
  (∀ v, row !! a = Some v → in_range v) →
  (∀ v, row !! b = Some v → in_range v) →
  is_Some (derive_field dst a b row).
Proof.
  intros Ha Hb. unfold derive_field.
  destruct (row !! a) as [x|], (row !! b) as [y|]; try by eauto.
  destruct (py_mul_numeric x y) as [v ->]; by eauto.
Qed.

(** A row whose [dst] already holds the product is left as it is. *)
Lemma derive_field_fixed dst a b row :
  (∀ x y, row !! a = Some x → row !! b = Some y →
          ∃ v, py_mul x y = Some v ∧ row !! dst = Some v) →
  derive_field dst a b row = Some row.
Proof.
  unfold derive_field. intros H.
  destruct (row !! a) as [x|], (row !! b) as [y|]; try done.
  destruct (H x y) as (v & -> & Hv); [done..|]. simpl. by rewrite insert_id.
Qed.

Lemma derived_ext dst a b (row1 row2 : record) :
  row1 !! a = row2 !! a → row1 !! b = row2 !! b → row1 !! dst = row2 !! dst →
  derived dst a b row1 = derived dst a b row2.
Proof. unfold derived. by intros -> -> ->. Qed.

Lemma derive_field_product dst a b row row' x y :
  derive_field dst a b row = Some row' →
  row !! a = Some x → row !! b = Some y → is_Some (py_mul x y).
Proof.
  unfold derive_field. intros H Ha Hb. rewrite Ha, Hb in H.
  destruct (py_mul x y); [by eauto|done].
Qed.

(** The three assignments write fields that none of them reads, so each
    product is taken from the fields of the input row. *)
Lemma process_row_steps row row' :
  process_row row = Some row' →
  ∃ r1 r2,
    derive_field "TOTAL" "QTY/CTN" "CTNS" row = Some r1 ∧
    derive_field "TOTAL NW" "CTNS" "NW" r1 = Some r2 ∧
    derive_field "TOTAL GW" "CTNS" "GW" r2 = Some row'.
Proof.
  unfold process_row. intros H.
  destruct (derive_field "TOTAL" _ _ row) as [r1|] eqn:H1; [|done].
  simpl in H.
  destruct (derive_field "TOTAL NW" _ _ r1) as [r2|] eqn:H2; [|done].
  by exists r1, r2.
Qed.

Lemma process_row_lookup row row' k :
  process_row row = Some row' →
  row' !! k =
    if decide (k = "TOTAL") then derived "TOTAL" "QTY/CTN" "CTNS" row
    else if decide (k = "TOTAL NW") then derived "TOTAL NW" "CTNS" "NW" row
    else if decide (k = "TOTAL GW") then derived "TOTAL GW" "CTNS" "GW" row
    else row !! k.
Proof.
  intros (r1 & r2 & H1 & H2 & H3)%process_row_steps.
  pose proof (λ k, derive_field_lookup _ _ _ _ _ k H1) as L1.
  pose proof (λ k, derive_field_lookup _ _ _ _ _ k H2) as L2.
  pose proof (λ k, derive_field_lookup _ _ _ _ _ k H3) as L3.
  rewrite L3.
  rewrite (derived_ext "TOTAL GW" "CTNS" "GW" r2 row)
    by (rewrite L2, L1; by repeat case_decide).
  rewrite L2.
  rewrite (derived_ext "TOTAL NW" "CTNS" "NW" r1 row)
    by (rewrite L1; by repeat case_decide).
  rewrite L1.
  repeat case_decide; by subst.
Qed.

(** A run that returns has computed every product it was asked for. *)
Lemma process_row_products row row' :
  process_row row = Some row' →
  Forall (λ '(a, b), ∀ x y, row !! a = Some x → row !! b = Some y →
                            is_Some (py_mul x y))
         [("QTY/CTN", "CTNS"); ("CTNS", "NW"); ("CTNS", "GW")].
Proof.
  intros (r1 & r2 & H1 & H2 & H3)%process_row_steps.
  pose proof (λ k, derive_field_lookup _ _ _ _ _ k H1) as L1.
  pose proof (λ k, derive_field_lookup _ _ _ _ _ k H2) as L2.
  repeat apply Forall_cons_2; [..|apply Forall_nil_2]; intros x y Hx Hy.
  - by apply (derive_field_product _ _ _ _ _ x y H1).
  - apply (derive_field_product _ _ _ _ _ x y H2).
    + rewrite L1. by case_decide.
    + rewrite L1. by case_decide.
  - apply (derive_field_product _ _ _ _ _ x y H3).
    + rewrite L2, L1. by repeat case_decide.
    + rewrite L2, L1. by repeat case_decide.
Qed.

Lemma process_row_numeric row : numeric_sources row → is_Some (process_row row).
Proof.
  intros Hnum. unfold process_row.
  destruct (derive_field_numeric "TOTAL" "QTY/CTN" "CTNS" row) as [r1 H1].
  { intros v. apply Hnum. set_solver. }
  { intros v. apply Hnum. set_solver. }
  rewrite H1. simpl.
  pose proof (λ k, derive_field_lookup _ _ _ _ _ k H1) as L1.
  destruct (derive_field_numeric "TOTAL NW" "CTNS" "NW" r1) as [r2 H2].
  { intros v. rewrite L1. case_decide; [done|]. apply Hnum. set_solver. }
  { intros v. rewrite L1. case_decide; [done|]. apply Hnum. set_solver. }
  rewrite H2. simpl.
  pose proof (λ k, derive_field_lookup _ _ _ _ _ k H2) as L2.
  apply derive_field_numeric.
  - intros v. rewrite L2, L1. repeat case_decide; try done. apply Hnum. set_solver.
  - intros v. rewrite L2, L1. repeat case_decide; try done. apply Hnum. set_solver.
Qed.

(** A derived row is a fixed point of the derivation. *)
Lemma process_row_fixed row row' :
  process_row row = Some row' → process_row row' = Some row'.
Proof.
  intros H.
  pose proof (λ k, process_row_lookup _ _ k H) as L.
  pose proof (process_row_products _ _ H) as HP.
  rewrite !Forall_cons in HP. destruct HP as (P1 & P2 & P3 & _).
  assert (∀ dst a b,
    row' !! a = row !! a → row' !! b = row !! b →
    row' !! dst = derived dst a b row →
    (∀ x y, row !! a = Some x → row !! b = Some y → is_Some (py_mul x y)) →
    derive_field dst a b row' = Some row') as Hfix.
  { intros dst a b Ha Hb Hd HP. apply derive_field_fixed. intros x y Hx Hy.
    rewrite Hd. unfold derived. rewrite <-Ha, <-Hb, Hx, Hy.
    rewrite Ha in Hx. rewrite Hb in Hy.
    destruct (HP x y Hx Hy) as [v ->]. by eauto. }
  unfold process_row.
  rewrite (Hfix "TOTAL" "QTY/CTN" "CTNS")
    by (done || rewrite L; by repeat case_decide).
  simpl.
  rewrite (Hfix "TOTAL NW" "CTNS" "NW")
    by (done || rewrite L; by repeat case_decide).
  simpl.
  by rewrite (Hfix "TOTAL GW" "CTNS" "GW")
    by (done || rewrite L; by repeat case_decide).
Qed.

Lemma process_data_fixed rows rows' :
  process_data rows = Some rows' → process_data rows' = Some rows'.
Proof.
  unfold process_data. rewrite !mapM_Some.
  induction 1 as [|r r' rows rows' Hr _ IH]; constructor; [|done].
  by eapply process_row_fixed.
Qed.

(** [derive({'QTY/CTN': 10})] has no [TOTAL]; with [CTNS = 5] also given,
    [TOTAL] is 50. *)
Example partial_derivation :
  (λ row, row !! "TOTAL") <$> process_row qty_only = Some None ∧
  (λ row, row !! "TOTAL") <$> process_row qty_ctns = Some (Some (VInt 50)).
Proof. split; vm_compute; reflexivity. Qed.

(** C2. In the row returned for an input row, [TOTAL] is the product of
    [QTY/CTN] and [CTNS] when the input has both, and is what the input had
    (possibly nothing) otherwise; likewise [TOTAL NW] from [CTNS] and [NW],
    and [TOTAL GW] from [CTNS] and [GW]; every other field is unchanged.
    A row is returned whenever the source fields present hold floats, bools
    or ints within the range of a float. *)
Theorem process_row_derives (row : record) :
  (numeric_sources row → is_Some (process_row row)) ∧
  ∀ row', process_row row = Some row' →
    row' !! "TOTAL" =
      match row !! "QTY/CTN", row !! "CTNS" with
      | Some qty, Some ctns => py_mul qty ctns
      | _, _ => row !! "TOTAL"
      end ∧
    row' !! "TOTAL NW" =
      match row !! "CTNS", row !! "NW" with
      | Some ctns, Some nw => py_mul ctns nw
      | _, _ => row !! "TOTAL NW"
      end ∧
    row' !! "TOTAL GW" =
      match row !! "CTNS", row !! "GW" with
      | Some ctns, Some gw => py_mul ctns gw
      | _, _ => row !! "TOTAL GW"
      end ∧
    ∀ k, k ∉ ["TOTAL"; "TOTAL NW"; "TOTAL GW"] → row' !! k = row !! k.
Proof.
  split; [apply process_row_numeric|].
  intros row' H. pose proof (λ k, process_row_lookup _ _ k H) as L.
  repeat split.
  - by rewrite L.
  - by rewrite L.
  - by rewrite L.
  - intros k Hk. rewrite L. repeat case_decide; set_solver.
Qed.

Lemma process_row_derives_witness :
  numeric_sources qty_ctns ∧
  ∃ row', process_row qty_ctns = Some row' ∧
    row' !! "TOTAL" = Some (VInt 50) ∧
    row' !! "TOTAL NW" = Some (VInt 90) ∧
    row' !! "TOTAL GW" = None.
Proof.
  assert (numeric_sources qty_ctns) as Hnum.
  { intros k v Hk. repeat (apply elem_of_cons in Hk as [->|Hk]);
      [..|by apply elem_of_nil in Hk]; intros Hv; vm_compute in Hv;
      try discriminate Hv; injection Hv as <-; vm_compute; reflexivity. }
  split; [exact Hnum|].
  destruct (proj1 (process_row_derives qty_ctns) Hnum) as [row' Hrow'].
  exists row'.
  destruct (proj2 (process_row_derives qty_ctns) row' Hrow') as (H1 & H2 & H3 & _).
  split; [exact Hrow'|]. split; [exact H1|]. split; [exact H2|exact H3].
Defined.

(** C8. Deriving twice gives what deriving once gives, for one row and for
    a list of rows. *)
Theorem derive_idempotent :
  (∀ row : record, process_row row ≫= process_row = process_row row) ∧
  (∀ rows : list record, process_data rows ≫= process_data = process_data rows).
Proof.
  split.
  - intros row. destruct (process_row row) as [row'|] eqn:H; [|done].
    simpl. by apply (process_row_fixed row).
  - intros rows. destruct (process_data rows) as [rows'|] eqn:H; [|done].
    simpl. by apply (process_data_fixed rows).
Qed.

End DeriveFacts.

(** ** Sorting by [ITEM] *)

Module SortFacts.
Import Sheets PyFacts.

Lemma item_key_str row : str_item row = true → item_key row = VStr (sort_key row).
Proof.
  unfold str_item, item_key, sort_key, get.
  destruct (row !! "ITEM") as [[]|]; simpl; done.
Qed.

Lemma insert_by_perm key x l s : insert_by key x l = Some s → s ≡ₚ x :: l.
Proof.
  revert s. induction l as [|y l IH]; simpl; intros s.
  - by intros [= <-].
  - destruct (py_lt (key y) (key x)) as [[]|]; simpl; [|by intros [= <-]|done].
    destruct (insert_by key x l) as [s'|]; simpl; [|done].
    intros [= <-]. rewrite (IH s' eq_refl). apply perm_swap.
Qed.

Lemma sorted_perm key l s : sorted key l = Some s → s ≡ₚ l.
Proof.
  revert s. induction l as [|x l IH]; simpl; intros s.
  - by intros [= <-].
  - destruct (sorted key l) as [s'|]; simpl; [|done].
    intros ->%insert_by_perm. by rewrite (IH s' eq_refl).
Qed.

(** Inserting a row among rows with string keys: no comparison raises, the
    order is kept, and the row only moves past rows of a smaller key. *)
Lemma insert_by_str x l :
  str_item x = true → Forall (λ r, str_item r = true) l →
  ∃ s, insert_by item_key x l = Some s ∧
       (StronglySorted key_le l → StronglySorted key_le s) ∧
       ∀ k, filter (λ r, sort_key r = k) s = filter (λ r, sort_key r = k) (x :: l).
Proof.
  intros Hx. induction 1 as [|y l Hy Hl IH]; simpl.
  - exists [x]. split; [done|]. split; [|done]. intros _. repeat constructor.
  - rewrite (item_key_str _ Hx), (item_key_str _ Hy). simpl.
    destruct IH as (s' & Hs' & Hsorted & Hstable).
    destruct (String.ltb (sort_key y) (sort_key x)) eqn:Hlt; rewrite ?Hs'; simpl.
    + exists (y :: s'). split; [done|]. split.
      * intros [Hall Hss]%StronglySorted_cons. apply StronglySorted_cons.
        split; [|by auto].
        rewrite (insert_by_perm _ _ _ _ Hs'). constructor; [|done].
        by apply str_ltb_leb.
      * intros k. rewrite !(filter_cons _ y), Hstable.
        destruct (decide (sort_key y = k)) as [<-|Hne].
        -- rewrite (filter_cons_False _ x); [|by apply not_symmetry, str_ltb_ne].
           rewrite (filter_cons_False _ x (y :: l));
             [|by apply not_symmetry, str_ltb_ne].
           by rewrite filter_cons_True.
        -- rewrite !(filter_cons _ x), filter_cons_False by done. done.
    + exists (x :: y :: l). split; [done|]. split; [|done].
      intros Hss. pose proof Hss as [Hall _]%StronglySorted_cons.
      apply StronglySorted_cons. split; [|done].
      apply str_ltb_false_leb in Hlt. constructor; [done|].
      eapply Forall_impl; [exact Hall|]. intros z Hz.
      unfold key_le in *. by eapply str_leb_trans.
Qed.

Lemma insert_by_str_item x l s :
  insert_by item_key x l = Some s →
  str_item x = true → Forall (λ r, str_item r = true) l →
  Forall (λ r, str_item r = true) s.
Proof.
  intros Hs Hx Hl. rewrite (insert_by_perm _ _ _ _ Hs). by constructor.
Qed.

(** [sorted] on rows with string keys returns the stable ascending sort. *)
Lemma sorted_str l :
  Forall (λ r, str_item r = true) l →
  ∃ s, sorted item_key l = Some s ∧
       StronglySorted key_le s ∧
       ∀ k, filter (λ r, sort_key r = k) s = filter (λ r, sort_key r = k) l.
Proof.
  induction 1 as [|x l Hx Hl IH]; simpl.
  - exists []. split; [done|]. split; [constructor|done].
  - destruct IH as (s' & Hs' & Hsorted & Hstable). rewrite Hs'. simpl.
    assert (Forall (λ r, str_item r = true) s') as Hall.
    { by rewrite (sorted_perm _ _ _ Hs'). }
    destruct (insert_by_str x s' Hx Hall) as (s & Hs & Hsorted' & Hstable').
    exists s. split; [done|]. split; [by auto|].
    intros k. rewrite Hstable', !(filter_cons _ x), Hstable. done.
Qed.

End SortFacts.

(** ** Grouping and summing *)

Module GroupFacts.
Import Sheets PyFacts SortFacts.

(** *** The dict of groups *)

Lemma filter_none {A} (P : A → Prop) `{∀ x, Decision (P x)} (l : list A) :
  Forall (λ x, ¬ P x) l → filter P l = [].
Proof.
  induction 1 as [|x l Hx _ IH]; [done|]. by rewrite filter_cons_False.
Qed.

Lemma items_append_spec items item row :
  distinct_keys items →
  items_append items item row =
    if existsb (λ kr, py_eq kr.1 item) items
    then (λ kr, (kr.1, if py_eq kr.1 item then kr.2 ++ [row] else kr.2)) <$> items
    else items ++ [(item, [row])].
Proof.
  induction items as [|[k rows] rest IH]; simpl; [done|].
  intros [Hk Hrest]. destruct (py_eq k item) eqn:Heq; simpl.
  - f_equal. symmetry. rewrite <-(list_fmap_id rest) at 2.
    apply list_fmap_ext. intros i [k' rows'] Hi. simpl.
    destruct (py_eq k' item) eqn:Heq'; [|done]. exfalso.
    rewrite Forall_lookup in Hk. specialize (Hk _ _ Hi). simpl in Hk.
    rewrite py_eq_sym in Heq'.
    by rewrite (py_eq_trans _ _ _ Heq Heq') in Hk.
  - rewrite (IH Hrest). by destruct (existsb _ rest).
Qed.

Lemma items_append_concat items item row :
  concat (snd <$> items_append items item row) ≡ₚ concat (snd <$> items) ++ [row].
Proof.
  induction items as [|[k rows] rest IH]; simpl; [done|].
  destruct (py_eq k item); csimpl.
  - by rewrite <-!app_assoc, (Permutation_app_comm [row]).
  - by rewrite IH, app_assoc.
Qed.

(** The groups hold every row exactly once. *)
Lemma group_items_concat rows : concat (snd <$> group_items rows) ≡ₚ rows.
Proof.
  unfold group_items. induction rows as [|r rows IH] using rev_ind; [done|].
  by rewrite foldl_snoc, items_append_concat, IH.
Qed.

Lemma distinct_keys_fmap (f : pyval * list record → pyval * list record) items :
  (∀ kr, (f kr).1 = kr.1) → distinct_keys items → distinct_keys (f <$> items).
Proof.
  intros Hf. induction items as [|kr rest IH]; csimpl; [done|].
  intros [Hk Hrest]. split; [|by auto].
  rewrite Forall_fmap. eapply Forall_impl; [exact Hk|].
  intros kr' H. simpl. by rewrite !Hf.
Qed.

Lemma existsb_key_fmap (f : pyval * list record → pyval * list record) items :
  (∀ kr, (f kr).1 = kr.1) →
  ∀ k, existsb (λ kr, py_eq kr.1 k) (f <$> items)
       = existsb (λ kr, py_eq kr.1 k) items.
Proof.
  intros Hf k. induction items as [|kr rest IH]; csimpl; [done|].
  by rewrite Hf, IH.
Qed.

Lemma distinct_keys_snoc items kr :
  distinct_keys items → Forall (λ kr', py_eq kr'.1 kr.1 = false) items →
  distinct_keys (items ++ [kr]).
Proof.
  induction items as [|kr0 rest IH]; simpl; [done|].
  intros [Hk Hrest] [H0 Hall]%Forall_cons. split; [|by auto].
  apply Forall_app. split; [done|]. by repeat constructor.
Qed.

Lemma group_rows_snoc item rows r :
  group_rows item (rows ++ [r])
  = group_rows item rows ++ (if py_eq item (group_key r) then [r] else []).
Proof.
  unfold group_rows. rewrite filter_app. f_equal.
  destruct (py_eq item (group_key r)) eqn:H.
  - by rewrite filter_cons_True.
  - rewrite filter_cons_False; [done|]. by rewrite H.
Qed.

(** The invariant of the grouping loop: keys are pairwise different, each
    key holds the rows that carry it, in order, and no row is left out.  A
    key that does not equal itself (a NaN) is set apart: it stays alone in a
    group of its own. *)
Lemma group_items_spec rows :
  distinct_keys (group_items rows) ∧
  Forall (λ kr, py_eq kr.1 kr.1 = true → kr.2 = group_rows kr.1 rows)
         (group_items rows) ∧
  Forall (λ r, py_eq (group_key r) (group_key r) = true →
               existsb (λ kr, py_eq kr.1 (group_key r)) (group_items rows) = true)
         rows.
Proof.
  unfold group_items. induction rows as [|r rows IH] using rev_ind.
  { simpl. by repeat split. }
  destruct IH as (Hd & Hrows & Hcov). rewrite foldl_snoc.
  set (G := foldl _ [] rows) in *.
  change (get r "ITEM" (VStr "Unknown")) with (group_key r).
  rewrite (items_append_spec _ _ _ Hd).
  destruct (existsb (λ kr, py_eq kr.1 (group_key r)) G) eqn:Hex.
  - split; [by apply distinct_keys_fmap|]. split.
    + rewrite Forall_fmap. eapply Forall_impl; [exact Hrows|].
      intros [k rs]. simpl. intros Hk Hrefl. rewrite group_rows_snoc, (Hk Hrefl).
      by destruct (py_eq k (group_key r)); rewrite ?app_nil_r.
    + pose proof (existsb_key_fmap
        (λ kr, (kr.1, if py_eq kr.1 (group_key r) then kr.2 ++ [r] else kr.2))
        G (λ _, eq_refl)) as Hsame.
      apply Forall_app. split.
      * eapply Forall_impl; [exact Hcov|]. intros r' Hr' Hrefl.
        rewrite Hsame. by apply Hr'.
      * repeat constructor. intros _. by rewrite Hsame.
  - assert (Forall (λ kr, py_eq kr.1 (group_key r) = false) G) as Hno.
    { apply Forall_forall. intros kr Hin.
      destruct (py_eq kr.1 (group_key r)) eqn:Heq; [|done].
      assert (existsb (λ kr, py_eq kr.1 (group_key r)) G = true); [|congruence].
      apply existsb_exists. exists kr. by rewrite <-list_elem_of_In. }
    split; [by apply distinct_keys_snoc|]. split.
    + apply Forall_app. split.
      * rewrite Forall_forall in Hrows. rewrite Forall_forall in Hno.
        apply Forall_forall.
        intros [k rs] Hin Hrefl. rewrite group_rows_snoc.
        specialize (Hno _ Hin). simpl in *. rewrite Hno, app_nil_r.
        by apply (Hrows _ Hin).
      * repeat constructor. simpl. intros Hrefl.
        rewrite group_rows_snoc, Hrefl.
        unfold group_rows. rewrite filter_none; [done|].
        rewrite Forall_forall in Hcov. rewrite Forall_forall in Hno.
        apply Forall_forall. intros r' Hin Heq.
        assert (py_eq (group_key r') (group_key r) = true) as Heq'.
        { by rewrite py_eq_sym. }
        pose proof (py_eq_trans _ _ _ Heq' Heq) as Hrefl'.
        apply (Hcov _ Hin), existsb_exists in Hrefl'
          as (kr & Hkr%list_elem_of_In & Hk).
        specialize (Hno _ Hkr). simpl in Hno.
        by rewrite (py_eq_trans _ _ _ Hk Heq') in Hno.
    + apply Forall_app. split.
      * eapply Forall_impl; [exact Hcov|]. intros r' Hr' Hrefl. simpl in *.
        rewrite existsb_app, (Hr' Hrefl). done.
      * repeat constructor. intros Hrefl. rewrite existsb_app. simpl.
        by rewrite Hrefl, orb_true_r.
Qed.

(** *** The sums of a list of rows *)

Lemma field_values_numeric field rows :
  Forall (λ v, is_numeric v = true) (field_values field rows).
Proof.
  unfold field_values. rewrite Forall_fmap. apply Forall_forall.
  intros row [Hnum _]%list_elem_of_filter. simpl.
  unfold get in *. by destruct (row !! field).
Qed.

Lemma field_values_cons field row rows :
  field_values field (row :: rows) =
    match row !! field with
    | Some v => if is_numeric v then v :: field_values field rows
                else field_values field rows
    | None => field_values field rows
    end.
Proof.
  unfold field_values, get. rewrite filter_cons.
  destruct (row !! field) as [v|] eqn:Hv; simpl.
  - destruct (is_numeric v); try case_decide; try done. csimpl. by rewrite Hv.
  - try case_decide; done.
Qed.



(** A field without floats sums to the exact sum of its ints. *)
Lemma field_values_ints field rows :
  Forall (no_float field) rows →
  forallb is_int (field_values field rows) = true.
Proof.
  induction 1 as [|row rows Hrow _ IH]; [done|].
  rewrite field_values_cons. specialize (Hrow) as Hf. unfold no_float in Hf.
  destruct (row !! field) as [[|b|z|x|s]|]; simpl; try done.
  by destruct (Hf x).
Qed.

Lemma sum_field_ints field rows :
  Forall (no_float field) rows →
  sum_field field rows = Some (VInt (int_total (field_values field rows))).
Proof. intros H. by apply py_sum_ints, field_values_ints. Qed.

Lemma sum_field_in_range field rows :
  int_mass (field_values field rows) < float_limit →
  is_Some (sum_field field rows).
Proof. apply py_sum_numeric, field_values_numeric. Qed.

Lemma field_values_app field rows1 rows2 :
  field_values field (rows1 ++ rows2)
  = field_values field rows1 ++ field_values field rows2.
Proof. unfold field_values. by rewrite filter_app, fmap_app. Qed.

Lemma field_values_concat field (groups : list (list record)) :
  field_values field (concat groups) = concat (field_values field <$> groups).
Proof.
  induction groups as [|g groups IH]; csimpl; [done|].
  by rewrite field_values_app, IH.
Qed.

Lemma field_values_perm field rows1 rows2 :
  rows1 ≡ₚ rows2 → field_values field rows1 ≡ₚ field_values field rows2.
Proof. intros H. unfold field_values. by rewrite H. Qed.

Lemma has_field_perm field rows1 rows2 :
  rows1 ≡ₚ rows2 → has_field field rows1 = has_field field rows2.
Proof.
  intros H. unfold has_field.
  induction H as [|x xs ys _ IH|x y xs|xs ys zs _ IH1 _ IH2]; simpl.
  - done.
  - by rewrite IH.
  - by rewrite !orb_assoc, (orb_comm (bool_decide _)).
  - congruence.
Qed.

Lemma has_field_concat field (groups : list (list record)) :
  has_field field (concat groups) = existsb (has_field field) groups.
Proof.
  unfold has_field. induction groups as [|g groups IH]; simpl; [done|].
  by rewrite existsb_app, IH.
Qed.

Lemma has_field_true field rows :
  has_field field rows = true ↔ ∃ row, row ∈ rows ∧ is_Some (row !! field).
Proof.
  unfold has_field. rewrite existsb_exists. split.
  - intros (row & Hin%list_elem_of_In & H%bool_decide_eq_true). eauto.
  - intros (row & Hin%list_elem_of_In & H). exists row.
    by rewrite bool_decide_eq_true.
Qed.

Lemma has_field_false_values field rows :
  has_field field rows = false → field_values field rows = [].
Proof.
  intros H. unfold field_values. rewrite filter_none; [done|].
  apply Forall_forall. intros row Hin Hnum.
  assert (has_field field rows = true); [|congruence].
  apply has_field_true. exists row. split; [done|].
  unfold get in Hnum. by destruct (row !! field).
Qed.

Lemma int_total_groups field (groups : list (list record)) :
  int_total ((λ rows, VInt (int_total (field_values field rows))) <$> groups)
  = int_total (field_values field (concat groups)).
Proof.
  induction groups as [|g groups IH]; csimpl; [done|].
  by rewrite field_values_app, int_total_app, IH.
Qed.

Lemma int_mass_group field (groups : list (list record)) rows :
  rows ∈ groups →
  int_mass (field_values field rows)
  ≤ int_mass (field_values field (concat groups)).
Proof.
  induction groups as [|g groups IH]; [by intros ?%elem_of_nil|].
  csimpl. rewrite field_values_app, int_mass_app.
  pose proof (int_mass_nonneg (field_values field g)).
  pose proof (int_mass_nonneg (field_values field (concat groups))).
  intros [->|Hin%IH]%elem_of_cons; lia.
Qed.

(** *** The loop over the numeric fields *)

Lemma totals_step_None rows fields : foldl (totals_step rows) None fields = None.
Proof. by induction fields. Qed.

Lemma bool_decide_elem_of_tail (f g : string) fields :
  f ≠ g → bool_decide (f ∈ g :: fields) = bool_decide (f ∈ fields).
Proof.
  intros Hne. apply bool_decide_ext. rewrite elem_of_cons.
  split; [by intros [?|?]|by right].
Qed.

Lemma totals_fold fields (acc : record) rows m :
  foldl (totals_step rows) (Some acc) fields = Some m →
  ∀ f, m !! f = (if bool_decide (f ∈ fields) && has_field f rows
                 then sum_field f rows else acc !! f) ∧
       (bool_decide (f ∈ fields) && has_field f rows = true →
        is_Some (sum_field f rows)).
Proof.
  revert acc. induction fields as [|g fields IH]; intros acc; cbn [foldl].
  - intros [= <-] f. by rewrite bool_decide_eq_false_2 by set_solver.
  - unfold totals_step at 2. cbn [mbind option_bind].
    fold (has_field g rows). destruct (has_field g rows) eqn:Hg.
    + destruct (sum_field g rows) as [v|] eqn:Hv; cbn [mbind option_bind];
        [|by rewrite totals_step_None].
      intros Hm f. destruct (IH _ Hm f) as [Hl Hs].
      destruct (decide (f = g)) as [->|Hne].
      * rewrite Hg, (bool_decide_eq_true_2 (g ∈ g :: fields))
          by (apply elem_of_cons; by left).
        simpl. split; [|by rewrite Hv]. rewrite Hl, Hg, lookup_insert_eq.
        by destruct (bool_decide (g ∈ fields)).
      * rewrite (bool_decide_elem_of_tail _ _ _ Hne).
        by rewrite Hl, lookup_insert_ne.
    + intros Hm f. destruct (IH _ Hm f) as [Hl Hs].
      destruct (decide (f = g)) as [->|Hne].
      * rewrite Hg, !andb_false_r in *. by split.
      * by rewrite (bool_decide_elem_of_tail _ _ _ Hne).
Qed.

(** What a returned dict of totals holds. *)
Lemma totals_spec rows m :
  totals rows = Some m →
  ∀ f, m !! f = field_total f rows ∧
       (is_Some (m !! f) ↔ f ∈ numeric_fields ∧ has_field f rows = true).
Proof.
  intros Hm f. destruct (totals_fold _ _ _ _ Hm f) as [Hl Hs].
  rewrite lookup_empty in Hl. split; [done|]. rewrite Hl.
  destruct (bool_decide (f ∈ numeric_fields)) eqn:Hf; simpl in *.
  - apply bool_decide_eq_true in Hf.
    destruct (has_field f rows).
    + split; [done|]. intros _. by apply Hs.
    + split; [by intros [? ?]|by intros [_ ?]].
  - apply bool_decide_eq_false in Hf.
    split; [by intros [? ?]|by intros [? _]].
Qed.

(** The loop raises only when a sum does. *)
Lemma totals_returns rows :
  (∀ f, f ∈ numeric_fields → is_Some (sum_field f rows)) →
  is_Some (totals rows).
Proof.
  unfold totals. generalize (∅ : record).
  induction numeric_fields as [|g fields IH]; intros acc Hsum; [by eexists|].
  cbn [foldl]. unfold totals_step at 2. cbn [mbind option_bind].
  destruct (existsb _ rows).
  - destruct (Hsum g) as [v ->]; [set_solver|]. cbn [mbind option_bind].
    apply IH. intros f Hf. apply Hsum. set_solver.
  - apply IH. intros f Hf. apply Hsum. set_solver.
Qed.




(** *** The rows of a key and their numbers *)





End GroupFacts.

(** ** The report of [sort_and_subtotal] *)

Module SheetsSpec.
Import Sheets PyFacts SortFacts GroupFacts.

(** What a returned report is made of. *)
Lemma sort_and_subtotal_Some data_list res :
  sort_and_subtotal data_list = Some res →
  sorted item_key data_list = Some (data res) ∧
  Forall2 (λ kr ks, ks.1 = kr.1 ∧ totals kr.2 = Some ks.2)
          (group_items (data res)) (subtotals res) ∧
  totals (data res) = Some (grand_total res).
Proof.
  unfold sort_and_subtotal. fold item_key.
  destruct (sorted item_key data_list) as [ds|]; cbn [mbind option_bind]; [|done].
  destruct (mapM _ (group_items ds)) as [subs|] eqn:Hsubs;
    cbn [mbind option_bind]; [|done].
  destruct (totals ds) as [grand|] eqn:Hgrand; cbn [mbind option_bind]; [|done].
  intros [= <-]. cbn [data subtotals grand_total].
  split; [done|]. split; [|done].
  apply mapM_Some_1 in Hsubs.
  eapply Forall2_impl; [exact Hsubs|].
  intros [item rows] [item' sub]. cbn [fst snd].
  destruct (totals rows) as [m|]; cbn [mbind option_bind]; [|done].
  intros [= Hitem Hsub]. by subst.
Qed.

Lemma data_perm data_list res :
  sort_and_subtotal data_list = Some res → data res ≡ₚ data_list.
Proof. intros (Hsorted & _)%sort_and_subtotal_Some. by eapply sorted_perm. Qed.

(** Once the rows are sorted, only a sum can raise. *)
Lemma sort_and_subtotal_sorted data_list ds :
  sorted item_key data_list = Some ds → sums_in_range data_list →
  ∃ res, sort_and_subtotal data_list = Some res ∧ data res = ds.
Proof.
  intros Hds Hrange.
  assert (∀ f, f ∈ numeric_fields →
               int_mass (field_values f ds) < float_limit) as Hds_range.
  { intros f Hf.
    rewrite (int_mass_perm _ _ (field_values_perm f _ _ (sorted_perm _ _ _ Hds))).
    by apply Hrange. }
  unfold sort_and_subtotal. fold item_key. rewrite Hds. cbn [mbind option_bind].
  destruct (mapM (λ '(item, rows), subtotal ← totals rows; Some (item, subtotal))
                 (group_items ds)) as [subs|] eqn:Hsubs.
  - cbn [mbind option_bind]. destruct (totals_returns ds) as [grand ->].
    { intros f Hf. by apply sum_field_in_range, Hds_range. }
    cbn [mbind option_bind]. by eexists.
  - exfalso.
    apply mapM_None_1, Exists_exists in Hsubs as ([item rows] & Hin & Hnone).
    destruct (totals_returns rows) as [m Hm]; [|by rewrite Hm in Hnone].
    intros f Hf. apply sum_field_in_range.
    eapply Z.le_lt_trans;
      [apply (int_mass_group f (snd <$> group_items ds) rows)|].
    + apply list_elem_of_fmap. by exists (item, rows).
    + rewrite (int_mass_perm _ _
                 (field_values_perm f _ _ (group_items_concat ds))).
      by apply Hds_range.
Qed.

Lemma sort_and_subtotal_returns data_list :
  Forall (λ r, str_item r = true) data_list → sums_in_range data_list →
  is_Some (sort_and_subtotal data_list).
Proof.
  intros (ds & Hds & _)%sorted_str Hrange.
  destruct (sort_and_subtotal_sorted _ _ Hds Hrange) as (res & -> & _).
  by eexists.
Qed.

(** The subtotal dicts, read through the groups they were computed from. *)
Lemma subtotals_as_groups data_list res f :
  sort_and_subtotal data_list = Some res →
  Forall2 (λ kr ks, ks.2 !! f = field_total f kr.2 ∧
                    (is_Some (ks.2 !! f) ↔
                     f ∈ numeric_fields ∧ has_field f kr.2 = true))
          (group_items (data res)) (subtotals res).
Proof.
  intros (_ & Hsubs & _)%sort_and_subtotal_Some.
  eapply Forall2_impl; [exact Hsubs|].
  intros kr ks [_ Htot]. by apply totals_spec.
Qed.

Lemma has_field_app f rows1 rows2 :
  has_field f (rows1 ++ rows2) = has_field f rows1 || has_field f rows2.
Proof. unfold has_field. by rewrite existsb_app. Qed.

Lemma any_subtotal f (groups : list (pyval * list record))
    (subs : list (pyval * record)) :
  Forall2 (λ kr ks, is_Some (ks.2 !! f) ↔
                    f ∈ numeric_fields ∧ has_field f kr.2 = true) groups subs →
  (∃ ks, ks ∈ subs ∧ is_Some (ks.2 !! f)) ↔
  f ∈ numeric_fields ∧ has_field f (concat (snd <$> groups)) = true.
Proof.
  induction 1 as [|kr ks groups subs Hk _ IH]; csimpl.
  - split; [by intros (ks & ?%elem_of_nil & _)|by intros [_ ?]].
  - rewrite has_field_app, orb_true_iff. split.
    + intros (ks' & [->|Hin]%elem_of_cons & Hsome).
      * apply Hk in Hsome as [? ?]. by auto.
      * destruct (proj1 IH) as [? ?]; [by exists ks'|]. by auto.
    + intros [Hf [Hhas|Hhas]].
      * exists ks. split; [by left|]. by apply Hk.
      * destruct (proj2 IH) as (ks' & Hin & Hsome); [done|].
        exists ks'. split; [by right|done].
Qed.

Lemma field_total_default_int f rows :
  f ∈ numeric_fields → Forall (no_float f) rows →
  default (VInt 0) (field_total f rows)
  = VInt (int_total (field_values f rows)).
Proof.
  intros Hf Hrows. unfold field_total.
  rewrite (bool_decide_eq_true_2 _ Hf). cbn [andb].
  destruct (has_field f rows) eqn:Hhas.
  - by rewrite sum_field_ints.
  - by rewrite (has_field_false_values _ _ Hhas).
Qed.

Lemma int_group_totals f (groups : list (pyval * list record))
    (subs : list (pyval * record)) :
  f ∈ numeric_fields →
  Forall2 (λ kr ks, ks.2 !! f = field_total f kr.2) groups subs →
  Forall (λ kr, Forall (no_float f) kr.2) groups →
  (λ ks, default (VInt 0) (ks.2 !! f)) <$> subs
  = (λ rows, VInt (int_total (field_values f rows))) <$> (snd <$> groups).
Proof.
  intros Hf. induction 1 as [|kr ks groups subs Hk _ IH]; csimpl; [done|].
  intros [Hkr Hgroups]%Forall_cons.
  by rewrite Hk, field_total_default_int, IH.
Qed.

Lemma forallb_is_int_totals f (groups : list (list record)) :
  forallb is_int ((λ rows, VInt (int_total (field_values f rows))) <$> groups)
  = true.
Proof. by induction groups. Qed.

(** The subtotal row of the two cable rows: 17, 1200, 6.4 and 7.75. *)
Example cable_subtotal :
  subtotals <$> sort_and_subtotal [cable_hdmi; cable_usb]
  = Some [(VStr "CABLE",
           {[ "CTNS" := VInt 17; "TOTAL" := VInt 1200;
              "TOTAL NW" := VFloat f_6_4; "TOTAL GW" := VFloat f_7_75 ]})].
Proof. vm_compute. reflexivity. Qed.

(** A row without [GW] next to one with [GW = 20] sums to 20. *)
Example missing_gw_subtotal :
  (λ res, (λ ks, ks.2 !! "GW") <$> subtotals res)
    <$> sort_and_subtotal [adapter_no_gw; adapter_gw]
  = Some [Some (VInt 20)].
Proof. vm_compute. reflexivity. Qed.

(** *** Subtotals *)



(** *** Grand total *)

(** C3, as stated, fails: float addition rounds, so adding all rows and
    adding the subtotals can differ.  With [NW] equal to [-2.0**60] under
    "A" and to [2.0**60] and [1.0] under "B", the subtotals are [-2.0**60]
    and [2.0**60], which add up to 0.0, while the grand total is 1.0. *)
Lemma float_subtotals_round :
  ∃ res, sort_and_subtotal rounding_rows = Some res ∧
    (λ ks, ks.2 !! "NW") <$> subtotals res
      = [Some (VFloat (-0x1p60)); Some (VFloat 0x1p60)] ∧
    py_sum ((λ ks, default (VInt 0) (ks.2 !! "NW")) <$> subtotals res)
      = Some (VFloat 0) ∧
    grand_total res !! "NW" = Some (VFloat 1).
Proof. eexists. repeat split; vm_compute; reflexivity. Qed.

(** C3, amended.  In a returned report the grand total has a field exactly
    when some subtotal has it; and for a field that holds no float in any
    input row, its value in the grand total is the sum of the subtotals'
    values, counting 0 for a subtotal without the field. *)
Theorem grand_total_sums_subtotals (data_list : list record) (res : result) :
  sort_and_subtotal data_list = Some res →
  ∀ f,
    (is_Some (grand_total res !! f) ↔
     ∃ ks, ks ∈ subtotals res ∧ is_Some (ks.2 !! f)) ∧
    (Forall (no_float f) data_list →
     ∀ v, grand_total res !! f = Some v →
       py_sum ((λ ks, default (VInt 0) (ks.2 !! f)) <$> subtotals res)
       = Some v).
Proof.
  intros Hres f.
  pose proof (subtotals_as_groups _ _ f Hres) as Hsubs.
  destruct (sort_and_subtotal_Some _ _ Hres) as (_ & _ & Hgrand).
  destruct (totals_spec _ _ Hgrand f) as [Hl Hhas].
  pose proof (group_items_concat (data res)) as Hperm.
  split.
  - rewrite Hhas, (any_subtotal f (group_items (data res)) (subtotals res)).
    + by rewrite (has_field_perm _ _ _ Hperm).
    + eapply Forall2_impl; [exact Hsubs|]. by intros kr ks [_ ?].
  - intros Hno v Hv.
    assert (f ∈ numeric_fields) as Hf.
    { apply Hhas. by rewrite Hv. }
    assert (Forall (no_float f) (data res)) as Hno'.
    { by rewrite (data_perm _ _ Hres). }
    rewrite (int_group_totals f (group_items (data res))); [|done|..].
    + rewrite py_sum_ints by apply forallb_is_int_totals.
      rewrite int_total_groups.
      rewrite (int_total_perm _ _ (field_values_perm f _ _ Hperm)).
      rewrite Hl in Hv. unfold field_total in Hv.
      destruct (bool_decide _ && has_field f (data res)); [|done].
      by rewrite sum_field_ints in Hv.
    + eapply Forall2_impl; [exact Hsubs|]. by intros kr ks [? _].
    + rewrite <-Hperm in Hno'. apply Forall_concat in Hno'.
      by rewrite Forall_fmap in Hno'.
Qed.

Lemma grand_total_sums_subtotals_witness :
  ∃ res, sort_and_subtotal sample_rows = Some res ∧
    ∀ f,
      (is_Some (grand_total res !! f) ↔
       ∃ ks, ks ∈ subtotals res ∧ is_Some (ks.2 !! f)) ∧
      (Forall (no_float f) sample_rows →
       ∀ v, grand_total res !! f = Some v →
         py_sum ((λ ks, default (VInt 0) (ks.2 !! f)) <$> subtotals res)
         = Some v).
Proof.
  eexists. split; [vm_compute; reflexivity|].
  apply (grand_total_sums_subtotals sample_rows). vm_compute. reflexivity.
Defined.

(** The [CTNS] of the sample rows, which are ints: 10 + 7 and 4 + 2 add up
    to the grand total 23. *)
Example ctns_grand_total :
  (λ res, (grand_total res !! "CTNS",
           (λ ks, ks.2 !! "CTNS") <$> subtotals res))
    <$> sort_and_subtotal sample_rows
  = Some (Some (VInt 23), [Some (VInt 6); Some (VInt 17)]).
Proof. vm_compute. reflexivity. Qed.

(** *** Data rows *)

(** C10. The data rows of a returned report are a rearrangement of the input
    rows: none is added, dropped or repeated. *)
Theorem data_rows_permutation (data_list : list record) (res : result) :
  sort_and_subtotal data_list = Some res → data res ≡ₚ data_list.
Proof. apply data_perm. Qed.

Lemma data_rows_permutation_witness :
  ∃ res, sort_and_subtotal sample_rows = Some res ∧ data res ≡ₚ sample_rows.
Proof.
  eexists. split; [vm_compute; reflexivity|].
  apply (data_rows_permutation sample_rows). vm_compute. reflexivity.
Defined.

(** C4. When every [ITEM] is a string (or absent, which sorts as the empty
    string), the data rows of a returned report are the input rows in
    ascending lexicographic order of [ITEM], and rows of equal [ITEM] keep
    their input order.  The upload order B/x, A/y, B/z comes out as A/y,
    B/x, B/z. *)
Theorem data_rows_sorted_stably :
  (∀ data_list res,
     Forall (λ r, str_item r = true) data_list →
     sort_and_subtotal data_list = Some res →
       data res ≡ₚ data_list ∧
       StronglySorted key_le (data res) ∧
       ∀ k, filter (λ r, sort_key r = k) (data res)
            = filter (λ r, sort_key r = k) data_list) ∧
  data <$> sort_and_subtotal upload_order
  = Some [item_model "A" "y"; item_model "B" "x"; item_model "B" "z"].
Proof.
  split; [|vm_compute; reflexivity].
  intros data_list res (ds & Hds & Hsorted & Hstable)%sorted_str Hres.
  destruct (sort_and_subtotal_Some _ _ Hres) as (Hds' & _).
  rewrite Hds in Hds'. injection Hds' as ->.
  split; [by eapply data_perm|done].
Qed.

Lemma data_rows_sorted_stably_witness :
  Forall (λ r, str_item r = true) upload_order ∧
  ∃ res, sort_and_subtotal upload_order = Some res ∧
    data res ≡ₚ upload_order ∧
    StronglySorted key_le (data res) ∧
    ∀ k, filter (λ r, sort_key r = k) (data res)
         = filter (λ r, sort_key r = k) upload_order.
Proof.
  assert (Forall (λ r, str_item r = true) upload_order) as H.
  { repeat constructor. }
  split; [exact H|]. eexists. split; [vm_compute; reflexivity|].
  apply (proj1 data_rows_sorted_stably upload_order); [exact H|].
  vm_compute. reflexivity.
Defined.

(** *** Empty input *)

(** C7. The empty list is not an error: the report has no data rows, no
    subtotal and a grand total without any field. *)
Theorem empty_input_report :
  sort_and_subtotal [] = Some (mk_result [] [] ∅).
Proof. reflexivity. Qed.

(** *** Raising *)

(** C9, as stated, fails: an int [ITEM] next to a string [ITEM] makes the
    sort compare an int with a string, which raises. *)
Lemma mixed_item_types_raise :
  sort_and_subtotal [ {[ "ITEM" := VInt 1 ]}; {[ "ITEM" := VStr "A" ]} ] = None.
Proof. vm_compute. reflexivity. Qed.

(** A sum raises as well when an int beyond the range of a float meets a
    float: [10**400 + 1.5] is an OverflowError. *)
Example huge_int_raises : sort_and_subtotal huge_rows = None.
Proof. vm_compute. reflexivity. Qed.

(** C9, amended. When every [ITEM] is a string or absent, and the ints of
    each numeric field stay within the range of a float however they are
    added up, a report is returned, whatever else the fields hold. *)
Theorem string_items_return (data_list : list record) :
  Forall (λ r, str_item r = true) data_list → sums_in_range data_list →
  is_Some (sort_and_subtotal data_list).
Proof. apply sort_and_subtotal_returns. Qed.

Lemma sample_rows_in_range : sums_in_range sample_rows.
Proof.
  intros f Hf. repeat (apply elem_of_cons in Hf as [->|Hf]);
    [..|by apply elem_of_nil in Hf]; vm_compute; reflexivity.
Qed.

Lemma string_items_return_witness :
  Forall (λ r, str_item r = true) sample_rows ∧
  sums_in_range sample_rows ∧
  is_Some (sort_and_subtotal sample_rows).
Proof.
  assert (Forall (λ r, str_item r = true) sample_rows) as H.
  { repeat constructor. }
  split; [exact H|]. split; [exact sample_rows_in_range|].
  exact (string_items_return sample_rows H sample_rows_in_range).
Defined.

(** *** Rows without an [ITEM] *)

(** Every data row falls under the key of some subtotal. *)
Lemma subtotals_cover data_list res row :
  sort_and_subtotal data_list = Some res → row ∈ data res →
  py_eq (group_key row) (group_key row) = true →
  ∃ item sub, (item, sub) ∈ subtotals res ∧ py_eq item (group_key row) = true.
Proof.
  intros (_ & Hsubs & _)%sort_and_subtotal_Some Hin Hrefl.
  destruct (group_items_spec (data res)) as (_ & _ & Hcov).
  rewrite Forall_forall in Hcov.
  apply (Hcov _ Hin), existsb_exists in Hrefl as ([k rows] & Hkr & Hk).
  simpl in Hk.
  apply list_elem_of_In, list_elem_of_lookup_1 in Hkr as [i Hi].
  destruct (Forall2_lookup_l _ _ _ _ _ Hsubs Hi) as ([k' sub] & Hks & Hk' & _).
  simpl in Hk'. subst k'. exists k, sub. split; [|done].
  by eapply list_elem_of_lookup_2.
Qed.

Lemma subtotal_of_str_key data_list res row s :
  sort_and_subtotal data_list = Some res → row ∈ data_list →
  group_key row = VStr s →
  row ∈ group_rows (VStr s) (data res) ∧ ∃ sub, (VStr s, sub) ∈ subtotals res.
Proof.
  intros Hres Hin Hkey.
  assert (row ∈ data res) as Hin' by (by rewrite (data_perm _ _ Hres)).
  split.
  - apply list_elem_of_filter. split; [|done]. by rewrite Hkey, py_eq_str_refl.
  - destruct (subtotals_cover _ _ _ Hres Hin') as (item & sub & Hsub & Heq).
    { by rewrite Hkey, py_eq_str_refl. }
    rewrite Hkey, py_eq_sym in Heq. apply py_eq_str in Heq as ->. by exists sub.
Qed.

Lemma StronglySorted_lookup {A} (R : relation A) l i j a b :
  StronglySorted R l → l !! i = Some a → l !! j = Some b → (i < j)%nat → R a b.
Proof.
  intros Hl. revert i j. induction Hl as [|x l _ IH Hall]; intros i j; [done|].
  destruct i as [|i], j as [|j]; simpl; try lia.
  - intros [= <-] Hb _. rewrite Forall_forall in Hall.
    by eapply Hall, list_elem_of_lookup_2.
  - intros Ha Hb Hij. apply (IH i j Ha Hb). lia.
Qed.

Lemma str_leb_empty s : String.leb s "" = true → s = "".
Proof. by destruct s. Qed.

(** C6, as stated, fails twice.  A row whose [ITEM] is the empty string is
    grouped under the empty string: the report has no "Unknown" subtotal.
    A row without [ITEM] is placed as the empty string: it comes before the
    row of item "A", although "A" is smaller than "Unknown". *)
Lemma empty_item_not_unknown :
  (∃ res, sort_and_subtotal [ {[ "ITEM" := VStr ""; "CTNS" := VInt 1 ]} ]
          = Some res ∧
     (subtotals res).*1 = [VStr ""] ∧
     ¬ ∃ sub, (VStr "Unknown", sub) ∈ subtotals res) ∧
  (data <$> sort_and_subtotal [ {[ "ITEM" := VStr "A" ]}; {[ "CTNS" := VInt 1 ]} ]
   = Some [ {[ "CTNS" := VInt 1 ]}; {[ "ITEM" := VStr "A" ]} ] ∧
   String.ltb "A" "Unknown" = true).
Proof.
  split.
  - eexists. split; [vm_compute; reflexivity|]. split; [reflexivity|].
    intros [sub Hsub]. apply list_elem_of_singleton in Hsub. discriminate Hsub.
  - split; vm_compute; reflexivity.
Qed.

(** C6, amended.  In a report returned for rows with string or absent
    [ITEM] values: a row without [ITEM] is grouped under the key "Unknown",
    a row whose [ITEM] is the empty string under the empty string, and in
    the data rows a row without [ITEM] comes before every row with a
    non-empty [ITEM]. *)
Theorem missing_item_grouping (data_list : list record) (res : result) :
  Forall (λ r, str_item r = true) data_list →
  sort_and_subtotal data_list = Some res →
    (∀ row, row ∈ data_list → row !! "ITEM" = None →
       row ∈ group_rows (VStr "Unknown") (data res) ∧
       ∃ sub, (VStr "Unknown", sub) ∈ subtotals res) ∧
    (∀ row, row ∈ data_list → row !! "ITEM" = Some (VStr "") →
       row ∈ group_rows (VStr "") (data res) ∧
       ∃ sub, (VStr "", sub) ∈ subtotals res) ∧
    (∀ i j row row', data res !! i = Some row → data res !! j = Some row' →
       row !! "ITEM" = None → sort_key row' ≠ "" → (i < j)%nat).
Proof.
  intros (ds & Hds & Hsorted & _)%sorted_str Hres.
  destruct (sort_and_subtotal_Some _ _ Hres) as (Hds' & _).
  rewrite Hds in Hds'. injection Hds' as ->.
  split; [|split].
  - intros row Hin Hnone. eapply subtotal_of_str_key; [done..|].
    unfold group_key, get. by rewrite Hnone.
  - intros row Hin Hitem. eapply subtotal_of_str_key; [done..|].
    unfold group_key, get. by rewrite Hitem.
  - intros i j row row' Hi Hj Hnone Hkey.
    assert (sort_key row = "") as Hrow by (unfold sort_key; by rewrite Hnone).
    destruct (decide (i < j)%nat) as [|Hge]; [done|]. exfalso.
    destruct (decide (i = j)) as [->|Hne]; [congruence|].
    assert (key_le row' row) as Hle.
    { apply (StronglySorted_lookup _ _ j i _ _ Hsorted Hj Hi). lia. }
    unfold key_le in Hle. rewrite Hrow in Hle. by apply str_leb_empty in Hle.
Qed.

Lemma missing_item_grouping_witness :
  let rows := [ {[ "ITEM" := VStr "A" ]}; {[ "CTNS" := VInt 1 ]};
                {[ "ITEM" := VStr "" ]} ] in
  Forall (λ r, str_item r = true) rows ∧
  ∃ res, sort_and_subtotal rows = Some res ∧
    (∀ row, row ∈ rows → row !! "ITEM" = None →
       row ∈ group_rows (VStr "Unknown") (data res) ∧
       ∃ sub, (VStr "Unknown", sub) ∈ subtotals res) ∧
    (∀ row, row ∈ rows → row !! "ITEM" = Some (VStr "") →
       row ∈ group_rows (VStr "") (data res) ∧
       ∃ sub, (VStr "", sub) ∈ subtotals res) ∧
    (∀ i j row row', data res !! i = Some row → data res !! j = Some row' →
       row !! "ITEM" = None → sort_key row' ≠ "" → (i < j)%nat).
Proof.
  intros rows.
  assert (Forall (λ r, str_item r = true) rows) as H.
  { repeat constructor. }
  split; [exact H|]. eexists. split; [vm_compute; reflexivity|].
  apply (missing_item_grouping rows); [exact H|]. vm_compute. reflexivity.
Defined.

End SheetsSpec.

(** ** The layout of the DataFrame report *)

Module DataStructureSpec.
Import DataStructure.

Lemma str_length_app s t :
  String.length (s +:+ t) = (String.length s + String.length t)%nat.
Proof. induction s as [|c s IH]; simpl; [done|]. by rewrite IH. Qed.

(** A label determines its key. *)
Lemma str_app_inv_r s1 s2 t : s1 +:+ t = s2 +:+ t → s1 = s2.
Proof.
  revert s2. induction s1 as [|c s1 IH]; intros [|d s2] H.
  - done.
  - apply (f_equal String.length) in H. rewrite !str_length_app in H.
    simpl in H. lia.
  - apply (f_equal String.length) in H. rewrite !str_length_app in H.
    simpl in H. lia.
  - change (String c (s1 +:+ t) = String d (s2 +:+ t)) in H.
    injection H as -> H. f_equal. by apply IH.
Qed.

Lemma elem_of_unique xs x : x ∈ unique xs ↔ x ∈ xs.
Proof.
  induction xs as [|y xs IH]; simpl; [done|].
  rewrite !elem_of_cons, list_elem_of_filter, IH.
  destruct (decide (x = y)); tauto.
Qed.

Lemma NoDup_unique xs : NoDup (unique xs).
Proof.
  induction xs as [|y xs IH]; simpl; [constructor|].
  apply NoDup_cons. split; [|by apply NoDup_filter].
  rewrite list_elem_of_filter. by intros [? _].
Qed.

Lemma StronglySorted_filter {A} (R : relation A) (P : A → Prop)
    `{∀ x, Decision (P x)} l :
  StronglySorted R l → StronglySorted R (filter P l).
Proof.
  induction 1 as [|x l _ IH Hall]; [constructor|].
  rewrite filter_cons. case_decide; [|done].
  constructor; [done|].
  apply Forall_forall. intros y [_ Hy]%list_elem_of_filter.
  rewrite Forall_forall in Hall. by apply Hall.
Qed.

(** The distinct keys of an ascending column are strictly ascending. *)
Lemma unique_sorted xs :
  StronglySorted String.le xs → StronglySorted str_lt (unique xs).
Proof.
  induction 1 as [|x xs _ IH Hall]; simpl; [constructor|].
  constructor; [by apply StronglySorted_filter|].
  apply Forall_forall. intros y [Hne Hy]%list_elem_of_filter.
  rewrite elem_of_unique in Hy.
  rewrite Forall_forall in Hall. split; [by apply Hall|by intros ->].
Qed.

Lemma foldl_blocks {A B} (block1 block2 : A → list B) (acc : list B) keys :
  foldl (λ result k, (result ++ block1 k) ++ block2 k) acc keys
  = acc ++ concat ((λ k, block1 k ++ block2 k) <$> keys).
Proof.
  revert acc. induction keys as [|k keys IH]; intros acc; csimpl.
  - by rewrite app_nil_r.
  - by rewrite IH, <-!app_assoc.
Qed.

(** The DataFrame version of the derivation is idempotent as well. *)
Lemma frame_process_data_fixed {num} (mul : num → num → num) (df : list (row num)) :
  process_data mul (process_data mul df) = process_data mul df.
Proof.
  unfold process_data. rewrite <-list_fmap_compose.
  apply list_fmap_ext. by intros i [] _.
Qed.

(** [stable_sort] is an ascending sort. *)
Section stable_sort.
Context {num : Type}.

Lemma insert_row_perm (x : row num) l : insert_row x l ≡ₚ x :: l.
Proof.
  induction l as [|y l IH]; simpl; [done|].
  destruct (String.ltb (ITEM y) (ITEM x)); [|done].
  rewrite IH. apply perm_swap.
Qed.

Lemma stable_sort_perm (df : list (row num)) : stable_sort df ≡ₚ df.
Proof.
  induction df as [|x df IH]; simpl; [done|].
  by rewrite insert_row_perm, IH.
Qed.

Lemma insert_row_sorted (x : row num) l :
  StronglySorted item_le l → StronglySorted item_le (insert_row x l).
Proof.
  induction 1 as [|y l Hl IH Hall]; simpl; [repeat constructor|].
  destruct (String.ltb (ITEM y) (ITEM x)) eqn:Hlt.
  - constructor; [done|]. rewrite insert_row_perm. constructor; [|done].
    unfold item_le, String.le. by rewrite (PyFacts.str_ltb_leb _ _ Hlt).
  - apply PyFacts.str_ltb_false_leb in Hlt.
    assert (item_le x y) as Hxy by (unfold item_le, String.le; by rewrite Hlt).
    constructor; [by constructor|]. constructor; [done|].
    eapply Forall_impl; [exact Hall|]. intros z Hz.
    unfold item_le in *. by etrans.
Qed.

Lemma stable_sort_sorted (df : list (row num)) :
  StronglySorted item_le (stable_sort df).
Proof.
  induction df as [|x df IH]; simpl; [constructor|].
  by apply insert_row_sorted.
Qed.

End stable_sort.

Section frame.
Context {num : Type} (col_sum : list num → num).
Context (sort_values : list (row num) → list (row num)).
Hypothesis sort_values_perm : ∀ df, sort_values df ≡ₚ df.
Hypothesis sort_values_sorted : ∀ df, StronglySorted item_le (sort_values df).

(** Selecting the subtotal of a key by its label finds exactly that row. *)
Lemma filter_label (rows : string → list (row num)) keys item :
  NoDup keys →
  filter (λ t, label t = item +:+ " Subtotal")
         (relabel <$> ((λ k, sums col_sum k (rows k)) <$> keys))
  = if decide (item ∈ keys)
    then [sums col_sum (item +:+ " Subtotal") (rows item)]
    else [].
Proof.
  induction 1 as [|k keys Hk Hnodup IH]; csimpl.
  - by destruct (decide (item ∈ [])) as [?%elem_of_nil|].
  - rewrite filter_cons, IH. simpl.
    destruct (decide (k +:+ " Subtotal" = item +:+ " Subtotal"))
      as [->%str_app_inv_r|Hne].
    + rewrite (decide_False (P := item ∈ keys)) by done.
      by rewrite decide_True by set_solver.
    + destruct (decide (item ∈ keys)).
      * by rewrite decide_True by set_solver.
      * rewrite decide_False; [done|]. by intros [->|?]%elem_of_cons.
Qed.

(** C5. The report of the DataFrame script, for a [sort_values] that returns
    the rows in ascending order of [ITEM]: for each distinct [ITEM], in
    strictly ascending order, the rows of that item in their order after the
    sort, then one totals row labelled with the item followed by
    [" Subtotal"]; at the end one totals row labelled ["Grand Total"]. *)
Theorem report_layout (df : list (row num)) :
  let df_sorted := sort_values df in
  let keys := unique (ITEM <$> df_sorted) in
  sort_and_subtotal col_sum sort_values df
  = concat ((λ k, let item_data := filter (λ r, ITEM r = k) df_sorted in
                  (DataRow <$> item_data)
                  ++ [TotalsRow (sums col_sum (k +:+ " Subtotal") item_data)])
            <$> keys)
    ++ [TotalsRow (sums col_sum "Grand Total" df_sorted)] ∧
  StronglySorted str_lt keys ∧
  (∀ k, k ∈ keys ↔ ∃ r, r ∈ df ∧ ITEM r = k).
Proof.
  intros df_sorted keys.
  pose proof (sort_values_perm df) as Hperm.
  pose proof (sort_values_sorted df) as Hsorted.
  fold df_sorted in Hperm, Hsorted.
  split; [|split].
  - unfold sort_and_subtotal. fold df_sorted. fold keys.
    rewrite foldl_blocks. simpl. f_equal. f_equal.
    apply list_fmap_ext. intros i k Hk%list_elem_of_lookup_2. simpl. f_equal.
    unfold groupby_sum. fold keys.
    assert (NoDup (merge_sort String.le keys)) as Hnodup.
    { rewrite merge_sort_Permutation. apply NoDup_unique. }
    rewrite (filter_label (λ k, filter (λ r, ITEM r = k) df_sorted) _ k Hnodup).
    rewrite decide_True; [done|]. by rewrite merge_sort_Permutation.
  - apply unique_sorted.
    apply (StronglySorted_fmap ITEM item_le String.le); [|done]. by intros a b.
  - intros k. unfold keys. rewrite elem_of_unique, list_elem_of_fmap.
    split.
    + intros (r & -> & Hr). exists r. by rewrite <-Hperm.
    + intros (r & Hr & <-). exists r. by rewrite Hperm.
Qed.

End frame.

Example report_example :
  show <$> sort_and_subtotal (foldr Z.add 0) stable_sort sample_frame
  = ["A/y"; "A Subtotal"; "B/x"; "B/z"; "B Subtotal"; "Grand Total"].
Proof. vm_compute. reflexivity. Qed.

Lemma report_layout_witness :
  let col_sum := foldr Z.add 0 in
  let df_sorted := stable_sort sample_frame in
  let keys := unique (ITEM <$> df_sorted) in
  sort_and_subtotal col_sum stable_sort sample_frame
  = concat ((λ k, let item_data := filter (λ r, ITEM r = k) df_sorted in
                  (DataRow <$> item_data)
                  ++ [TotalsRow (sums col_sum (k +:+ " Subtotal") item_data)])
            <$> keys)
    ++ [TotalsRow (sums col_sum "Grand Total" df_sorted)] ∧
  StronglySorted str_lt keys ∧
  (∀ k, k ∈ keys ↔ ∃ r, r ∈ sample_frame ∧ ITEM r = k).
Proof.
  exact (report_layout (foldr Z.add 0) stable_sort
           stable_sort_perm stable_sort_sorted sample_frame).
Defined.

End DataStructureSpec.

(** ** Facts about strings *)

Module StringFacts.
Import MoreTerms Excel Documents.

Lemma contains_char c d s :
  contains (String c "") (String d s)
  = bool_decide (c = d) || contains (String c "") s.
Proof.
  cbn [contains String.prefix].
  destruct (Ascii.ascii_dec c d) as [->|Hne].
  - rewrite bool_decide_eq_true_2 by done. by destruct s.
  - by rewrite bool_decide_eq_false_2 by done.
Qed.




(** The decimal digits of an int hold no ['.']. *)
Lemma pretty_N_go_no_dot x s :
  contains "." s = false → contains "." (pretty_N_go x s) = false.
Proof.
  revert s. induction (N.lt_wf_0 x) as [x _ IH]; intros s Hs.
  assert (x = 0 ∨ 0 < x)%N as [->|Hx] by lia.
  - by rewrite pretty_N_go_0.
  - rewrite pretty_N_go_step by done. apply IH.
    { by apply N.div_lt. }
    change "."%string with (String (Ascii.ascii_of_nat 46) "") in Hs |- *.
    rewrite contains_char, Hs, orb_false_r. apply bool_decide_eq_false_2.
    unfold pretty_N_char. by repeat case_match.
Qed.

Lemma pretty_no_dot (z : Z) : contains "." (pretty z) = false.
Proof.
  assert (∀ p : positive, contains "." (pretty p) = false) as Hpos.
  { intros p. unfold pretty, pretty_positive, pretty, pretty_N.
    rewrite decide_False by done. by apply pretty_N_go_no_dot. }
  destruct z as [|p|p]; [done|apply Hpos|].
  unfold pretty, pretty_Z.
  change ("-" +:+ pretty p) with (String (Ascii.ascii_of_nat 45) (pretty p)).
  change "."%string with (String (Ascii.ascii_of_nat 46) "").
  rewrite contains_char. change (String (Ascii.ascii_of_nat 46) "") with "."%string.
  by rewrite Hpos.
Qed.

End StringFacts.

(** ** Groups as runs of the sorted rows *)

Module RunFacts.
Import DataStructure DataStructureSpec PyFacts SortFacts GroupFacts SheetsSpec.
Import Sheets MoreTerms.

Lemma unique_snoc xs x :
  unique (xs ++ [x]) = if decide (x ∈ xs) then unique xs else unique xs ++ [x].
Proof.
  induction xs as [|y xs IH]; csimpl.
  - by destruct (decide (x ∈ [])) as [?%elem_of_nil|].
  - rewrite IH. destruct (decide (x = y)) as [->|Hne].
    + destruct (decide (y ∈ y :: xs)) as [_|Hn]; [|by destruct Hn; left].
      destruct (decide (y ∈ xs)); [done|].
      rewrite filter_app, filter_cons_False, app_nil_r; [done|]. by intros ?.
    + destruct (decide (x ∈ xs)) as [Hin|Hnin].
      * destruct (decide (x ∈ y :: xs)) as [_|Hn]; [done|by destruct Hn; right].
      * destruct (decide (x ∈ y :: xs)) as [[?|?]%elem_of_cons|_]; [done..|].
        by rewrite filter_app, filter_cons_True.
Qed.

(** In a strictly ascending list, a largest element is the last one. *)
Lemma str_lt_last ks m :
  StronglySorted str_lt ks → m ∈ ks → (∀ k, k ∈ ks → String.le k m) →
  ∃ ks', ks = ks' ++ [m].
Proof.
  intros Hs Hm Hmax. destruct ks as [|k0 ks0] using rev_ind.
  { by apply elem_of_nil in Hm. }
  clear IHks0. exists ks0. f_equal. f_equal.
  apply elem_of_app in Hm as [Hm|Hm%list_elem_of_singleton]; [|done].
  exfalso.
  apply (StronglySorted_app_1_elem_of _ _ _ m k0) in Hs as [Hle Hne];
    [|done|by apply list_elem_of_singleton].
  apply Hne. apply (anti_symm String.le); [done|].
  apply Hmax. apply elem_of_app. right. by apply list_elem_of_singleton.
Qed.

(** Rows in ascending order of a key are the runs of the distinct keys, one
    after another. *)
Lemma concat_runs {A} (key : A → string) (l : list A) :
  StronglySorted (λ a b, String.le (key a) (key b)) l →
  concat ((λ k, filter (λ a, key a = k) l) <$> unique (key <$> l)) = l.
Proof.
  induction l as [|x l IH] using rev_ind; [done|]. intros Hs.
  assert (StronglySorted String.le (key <$> l ++ [x])) as Hkeys.
  { by apply (StronglySorted_fmap key (λ a b, String.le (key a) (key b))). }
  pose proof (StronglySorted_app_1_l _ _ _ Hs) as Hl.
  specialize (IH Hl).
  assert (∀ ks : list string, key x ∉ ks →
    (λ k, filter (λ a, key a = k) (l ++ [x])) <$> ks
    = (λ k, filter (λ a, key a = k) l) <$> ks) as Hold.
  { intros ks Hks. apply list_fmap_ext. intros i k Hk%list_elem_of_lookup_2.
    rewrite filter_app, filter_cons_False, app_nil_r; [done|].
    intros Heq. subst k. done. }
  rewrite fmap_app. csimpl. rewrite unique_snoc.
  destruct (decide (key x ∈ key <$> l)) as [Hin|Hnin].
  - destruct (str_lt_last (unique (key <$> l)) (key x)) as [ks' Hks'].
    + apply unique_sorted.
      rewrite fmap_app in Hkeys. by apply StronglySorted_app_1_l in Hkeys.
    + by apply elem_of_unique.
    + intros k Hk. rewrite elem_of_unique in Hk.
      rewrite fmap_app in Hkeys. csimpl in Hkeys.
      apply (StronglySorted_app_1_elem_of _ _ _ k (key x)) in Hkeys;
        [done|done|by apply list_elem_of_singleton].
    + assert (key x ∉ ks') as Hnotin.
      { pose proof (NoDup_unique (key <$> l)) as Hnd. rewrite Hks' in Hnd.
        apply NoDup_app in Hnd as (_ & Hnd & _). intros Hk.
        apply (Hnd _ Hk). by apply list_elem_of_singleton. }
      rewrite Hks' in IH |- *. rewrite fmap_app, concat_app in IH |- *.
      rewrite (Hold _ Hnotin). cbn [fmap list_fmap concat] in IH |- *.
      rewrite filter_app, filter_cons_True, filter_nil, app_nil_r by done.
      rewrite app_nil_r in IH. by rewrite app_assoc, IH.
  - rewrite fmap_app, concat_app. cbn [fmap list_fmap concat].
    rewrite Hold by (by rewrite elem_of_unique).
    rewrite IH, app_nil_r, filter_app, filter_cons_True, filter_nil by done.
    rewrite (filter_none (λ a, key a = key x)), app_nil_l; [done|].
    apply Forall_forall. intros a Ha Hkey. apply Hnin.
    apply list_elem_of_fmap. by exists a.
Qed.


Lemma named_item_key row :
  named_item row = true →
  get row "ITEM" (VStr "Unknown") = VStr (sort_key row) ∧ str_item row = true.
Proof.
  unfold named_item, get, sort_key, str_item.
  by destruct (row !! "ITEM") as [[]|].
Qed.

Lemma items_append_runs (g : string → list record) ks kx r :
  NoDup ks →
  items_append ((λ k, (VStr k, g k)) <$> ks) (VStr kx) r
  = if decide (kx ∈ ks)
    then (λ k, (VStr k, if decide (k = kx) then g k ++ [r] else g k)) <$> ks
    else ((λ k, (VStr k, g k)) <$> ks) ++ [(VStr kx, [r])].
Proof.
  induction 1 as [|k ks Hk Hnd IH]; csimpl.
  { by destruct (decide (kx ∈ [])) as [?%elem_of_nil|]. }
  destruct (decide (k = kx)) as [->|Hne].
  - rewrite bool_decide_eq_true_2 by done.
    destruct (decide (kx ∈ kx :: ks)) as [_|Hn]; [|by destruct Hn; left].
    f_equal. apply list_fmap_ext. intros i k Hi%list_elem_of_lookup_2.
    destruct (decide (k = kx)) as [->|]; done.
  - rewrite bool_decide_eq_false_2 by done. rewrite IH.
    destruct (decide (kx ∈ ks)) as [Hin|Hnin].
    + destruct (decide (kx ∈ k :: ks)) as [_|Hn]; [done|by destruct Hn; right].
    + by destruct (decide (kx ∈ k :: ks)) as [[?|?]%elem_of_cons|_].
Qed.

(** The dict [items] of rows that all have a string [ITEM]: the distinct
    items in order of first appearance, each with its rows in order. *)
Lemma group_items_runs rows :
  Forall (λ r, named_item r = true) rows →
  group_items rows
  = (λ k, (VStr k, filter (λ r, sort_key r = k) rows))
      <$> unique (sort_key <$> rows).
Proof.
  unfold group_items. induction rows as [|r rows IH] using rev_ind; [done|].
  intros [Hrows [Hr _]%Forall_cons]%Forall_app.
  rewrite foldl_snoc, (IH Hrows), (proj1 (named_item_key _ Hr)).
  rewrite items_append_runs by apply NoDup_unique.
  rewrite fmap_app. cbn [fmap list_fmap]. rewrite unique_snoc.
  destruct (decide (sort_key r ∈ unique (sort_key <$> rows))) as [Hin|Hnin].
  - rewrite elem_of_unique in Hin.
    destruct (decide (sort_key r ∈ sort_key <$> rows)); [|done].
    apply list_fmap_ext. intros i k _. rewrite filter_app. f_equal.
    destruct (decide (k = sort_key r)) as [->|Hne].
    + by rewrite filter_cons_True.
    + rewrite filter_cons_False, app_nil_r; [done|]. by intros ?.
  - rewrite elem_of_unique in Hnin.
    destruct (decide (sort_key r ∈ sort_key <$> rows)); [done|].
    rewrite fmap_app. cbn [fmap list_fmap]. f_equal.
    + apply list_fmap_ext. intros i k Hk%list_elem_of_lookup_2.
      rewrite filter_app, filter_cons_False, app_nil_r; [done|].
      intros Heq. subst k. by rewrite elem_of_unique in Hk.
    + rewrite filter_app, filter_cons_True, filter_nil by done.
      rewrite (filter_none (λ r', sort_key r' = sort_key r)); [done|].
      apply Forall_forall. intros r' Hr' Heq. apply Hnin.
      apply list_elem_of_fmap. by exists r'.
Qed.

(** Sorting rows that are in ascending order leaves them as they are. *)
Lemma sorted_fixed l :
  Forall (λ r, str_item r = true) l → StronglySorted key_le l →
  sorted item_key l = Some l.
Proof.
  induction 1 as [|x l Hx Hl IH]; [done|].
  intros [Hall Hs]%StronglySorted_cons. cbn [sorted].
  rewrite (IH Hs). cbn [mbind option_bind].
  destruct l as [|y l']; [done|]. cbn [insert_by].
  apply Forall_cons in Hl as [Hy _]. apply Forall_cons in Hall as [Hxy _].
  rewrite (item_key_str _ Hx), (item_key_str _ Hy). cbn [py_lt].
  unfold key_le in Hxy. apply str_ltb_false_leb in Hxy. by rewrite Hxy.
Qed.

Lemma key_le_le l :
  StronglySorted key_le l →
  StronglySorted (λ a b, String.le (sort_key a) (sort_key b)) l.
Proof.
  induction 1 as [|x l _ IH Hall]; constructor; [done|].
  eapply Forall_impl; [exact Hall|]. intros b Hb.
  unfold key_le in Hb. unfold String.le. by rewrite Hb.
Qed.

Lemma report_runs (data_list : list record) (res : result) :
  Forall (λ r, named_item r = true) data_list →
  sort_and_subtotal data_list = Some res →
  let keys := unique (sort_key <$> data res) in
  StronglySorted str_lt keys ∧
  (subtotals res).*1 = VStr <$> keys ∧
  group_items (data res)
    = (λ k, (VStr k, filter (λ r, sort_key r = k) (data res))) <$> keys ∧
  concat (snd <$> group_items (data res)) = data res.
Proof.
  intros Hnamed Hres keys.
  assert (Forall (λ r, named_item r = true) (data res)) as Hnamed'.
  { by rewrite (data_perm _ _ Hres). }
  assert (Forall (λ r, str_item r = true) data_list) as Hstr.
  { eapply Forall_impl; [exact Hnamed|]. intros r Hr.
    by apply named_item_key. }
  destruct (sorted_str _ Hstr) as (ds & Hds & Hsorted & _).
  destruct (sort_and_subtotal_Some _ _ Hres) as (Hds' & Hsubs & _).
  rewrite Hds in Hds'. injection Hds' as ->.
  assert (StronglySorted (λ a b, String.le (sort_key a) (sort_key b)) (data res))
    as Hle.
  { by apply key_le_le. }
  pose proof (group_items_runs _ Hnamed') as Hruns. fold keys in Hruns.
  split; [|split; [|split]].
  - apply unique_sorted.
    by apply (StronglySorted_fmap sort_key
                (λ a b, String.le (sort_key a) (sort_key b))).
  - transitivity ((group_items (data res)).*1).
    + clear Hruns. induction Hsubs as [|kr ks G subs [Hk _] _ IH]; csimpl;
        [done|]. by rewrite Hk, IH.
    + rewrite Hruns, <-list_fmap_compose. by apply list_fmap_ext.
  - done.
  - rewrite Hruns, <-list_fmap_compose. by apply concat_runs.
Qed.

(** X1. When every row has a string [ITEM], the subtotals of a returned
    report come in strictly ascending order of [ITEM], one for each distinct
    [ITEM] of the data rows; the group of an item is the run of the data
    rows that have it, in their order, and the groups, one after another,
    are the data rows. *)
Theorem subtotals_in_key_order (data_list : list record) (res : result) :
  Forall (λ r, named_item r = true) data_list →
  sort_and_subtotal data_list = Some res →
  let keys := unique (sort_key <$> data res) in
  StronglySorted str_lt keys ∧
  (subtotals res).*1 = VStr <$> keys ∧
  group_items (data res)
    = (λ k, (VStr k, filter (λ r, sort_key r = k) (data res))) <$> keys ∧
  concat (snd <$> group_items (data res)) = data res.
Proof. apply report_runs. Qed.

Lemma subtotals_in_key_order_witness :
  Forall (λ r, named_item r = true) sample_rows ∧
  ∃ res, sort_and_subtotal sample_rows = Some res ∧
    let keys := unique (sort_key <$> data res) in
    StronglySorted str_lt keys ∧
    (subtotals res).*1 = VStr <$> keys ∧
    group_items (data res)
      = (λ k, (VStr k, filter (λ r, sort_key r = k) (data res))) <$> keys ∧
    concat (snd <$> group_items (data res)) = data res.
Proof.
  assert (Forall (λ r, named_item r = true) sample_rows) as H.
  { repeat constructor. }
  split; [exact H|]. eexists. split; [vm_compute; reflexivity|].
  apply (subtotals_in_key_order sample_rows); [exact H|].
  vm_compute. reflexivity.
Defined.

(** X2. For rows whose [ITEM] is a string or absent, aggregating the data
    rows of a returned report once more returns the same report. *)
Theorem aggregate_again (data_list : list record) (res : result) :
  Forall (λ r, str_item r = true) data_list →
  sort_and_subtotal data_list = Some res →
  sort_and_subtotal (data res) = Some res.
Proof.
  intros Hstr Hres.
  destruct (sorted_str _ Hstr) as (ds & Hds & Hsorted & _).
  destruct (sort_and_subtotal_Some _ _ Hres) as (Hds' & _).
  rewrite Hds in Hds'. injection Hds' as Hdata.
  assert (sorted item_key ds = Some ds) as Hfix.
  { apply sorted_fixed; [|done]. by rewrite (sorted_perm _ _ _ Hds). }
  revert Hres. unfold sort_and_subtotal. fold item_key.
  rewrite Hds. cbn [mbind option_bind].
  intros Hres. rewrite <-Hdata, Hfix. cbn [mbind option_bind]. exact Hres.
Qed.

Lemma aggregate_again_witness :
  Forall (λ r, str_item r = true) sample_rows ∧
  ∃ res, sort_and_subtotal sample_rows = Some res ∧
         sort_and_subtotal (data res) = Some res.
Proof.
  assert (Forall (λ r, str_item r = true) sample_rows) as H.
  { repeat constructor. }
  split; [exact H|]. eexists. split; [vm_compute; reflexivity|].
  apply (aggregate_again sample_rows); [exact H|]. vm_compute. reflexivity.
Defined.

Lemma field_total_perm_int f rows rows' :
  rows ≡ₚ rows' → Forall (no_float f) rows →
  field_total f rows = field_total f rows'.
Proof.
  intros Hperm Hno. unfold field_total.
  rewrite (has_field_perm _ _ _ Hperm).
  destruct (bool_decide _ && has_field f rows'); [|done].
  rewrite !sum_field_ints by (by rewrite <-?Hperm).
  by rewrite (int_total_perm _ _ (field_values_perm f _ _ Hperm)).
Qed.

Lemma subtotals_entry data_list res item sub :
  sort_and_subtotal data_list = Some res →
  (item, sub) ∈ subtotals res → py_eq item item = true →
  ∀ f, sub !! f = field_total f (group_rows item (data res)).
Proof.
  intros (_ & Hsubs & _)%sort_and_subtotal_Some
         (i & Hi)%list_elem_of_lookup_1 Hrefl f.
  destruct (Forall2_lookup_r _ _ _ _ _ Hsubs Hi) as ([k rows] & Hk & Hks & Htot).
  simpl in *. subst k. rewrite (proj1 (totals_spec _ _ Htot f)).
  destruct (group_items_spec (data res)) as (_ & Hrows & _).
  rewrite Forall_lookup in Hrows. specialize (Hrows _ _ Hk Hrefl).
  simpl in Hrows. by rewrite Hrows.
Qed.

(** X3. For a field that holds no float in any row, the grand total and
    the subtotal of every item are the same for two input lists that are
    rearrangements of each other. *)
Theorem int_totals_ignore_order (data_list data_list' : list record)
    (res res' : result) (f : string) :
  data_list ≡ₚ data_list' → Forall (no_float f) data_list →
  sort_and_subtotal data_list = Some res →
  sort_and_subtotal data_list' = Some res' →
  grand_total res !! f = grand_total res' !! f ∧
  ∀ item sub sub', py_eq item item = true →
    (item, sub) ∈ subtotals res → (item, sub') ∈ subtotals res' →
    sub !! f = sub' !! f.
Proof.
  intros Hperm Hno Hres Hres'.
  assert (data res ≡ₚ data res') as Hdata.
  { by rewrite (data_perm _ _ Hres), (data_perm _ _ Hres'). }
  assert (Forall (no_float f) (data res)) as Hno'.
  { by rewrite (data_perm _ _ Hres). }
  split.
  - destruct (sort_and_subtotal_Some _ _ Hres) as (_ & _ & Hg).
    destruct (sort_and_subtotal_Some _ _ Hres') as (_ & _ & Hg').
    rewrite (proj1 (totals_spec _ _ Hg f)), (proj1 (totals_spec _ _ Hg' f)).
    by apply field_total_perm_int.
  - intros item sub sub' Hrefl Hin Hin'.
    rewrite (subtotals_entry _ _ _ _ Hres Hin Hrefl f).
    rewrite (subtotals_entry _ _ _ _ Hres' Hin' Hrefl f).
    apply field_total_perm_int.
    + unfold group_rows. by rewrite Hdata.
    + unfold group_rows. apply Forall_forall.
      intros r [_ Hr]%list_elem_of_filter.
      rewrite Forall_forall in Hno'. by apply Hno'.
Qed.

Lemma int_totals_ignore_order_witness :
  sample_rows ≡ₚ reverse sample_rows ∧
  Forall (no_float "CTNS") sample_rows ∧
  ∃ res res',
    sort_and_subtotal sample_rows = Some res ∧
    sort_and_subtotal (reverse sample_rows) = Some res' ∧
    grand_total res !! "CTNS" = grand_total res' !! "CTNS" ∧
    ∀ item sub sub', py_eq item item = true →
      (item, sub) ∈ subtotals res → (item, sub') ∈ subtotals res' →
      sub !! "CTNS" = sub' !! "CTNS".
Proof.
  assert (sample_rows ≡ₚ reverse sample_rows) as Hperm.
  { symmetry. apply reverse_Permutation. }
  assert (Forall (no_float "CTNS") sample_rows) as Hno.
  { repeat constructor; intros x; vm_compute; discriminate. }
  split; [exact Hperm|]. split; [exact Hno|].
  eexists _, _. split; [vm_compute; reflexivity|].
  split; [vm_compute; reflexivity|].
  apply (int_totals_ignore_order sample_rows (reverse sample_rows));
    [exact Hperm|exact Hno|vm_compute; reflexivity..].
Defined.

(** *** The values of the totals *)

Lemma foldl_add_is_acc a xs v :
  is_acc a = true →
  foldl (λ acc x, a ← acc; py_add a x) (Some a) xs = Some v →
  is_acc v = true.
Proof.
  revert a. induction xs as [|x xs IH]; intros a Ha; cbn [foldl].
  - by intros [= <-].
  - cbn [mbind option_bind].
    destruct (py_add a x) as [a'|] eqn:Hadd; [|by rewrite foldl_add_None].
    apply IH. by eapply py_add_is_acc.
Qed.

Lemma totals_numbers rows (m : record) f v :
  totals rows = Some m → m !! f = Some v →
  f ∈ numeric_fields ∧ is_number v = true.
Proof.
  intros Hm Hv. destruct (totals_spec _ _ Hm f) as [Hl Hhas].
  split; [apply Hhas; by rewrite Hv|].
  rewrite Hl in Hv. unfold field_total in Hv.
  destruct (bool_decide _ && has_field f rows); [|done].
  apply (foldl_add_is_acc (VInt 0)) in Hv; [|done]. by destruct v.
Qed.

(** X4. In a returned report the keys of the grand total and of every
    subtotal are among the seven fields that the code sums ([CTNS], [TOTAL],
    [TOTAL NW], [TOTAL GW], [QTY/CTN], [NW] and [GW], the list
    [numeric_fields]), and each value is an int or a float: never a string,
    a bool or [None], and never [ITEM] or another field of the rows. *)
Theorem totals_are_numbers (data_list : list record) (res : result) :
  sort_and_subtotal data_list = Some res →
  (∀ f v, grand_total res !! f = Some v →
          f ∈ numeric_fields ∧ is_number v = true) ∧
  Forall (λ ks : pyval * record, ∀ f v, ks.2 !! f = Some v →
            f ∈ numeric_fields ∧ is_number v = true)
         (subtotals res).
Proof.
  intros (_ & Hsubs & Hgrand)%sort_and_subtotal_Some. split.
  - intros f v. exact (totals_numbers _ _ f v Hgrand).
  - apply Forall_forall. intros ks (i & Hi)%list_elem_of_lookup_1 f v.
    destruct (Forall2_lookup_r _ _ _ _ _ Hsubs Hi) as (kr & _ & _ & Htot).
    exact (totals_numbers _ _ f v Htot).
Qed.

Lemma totals_are_numbers_witness :
  ∃ res, sort_and_subtotal sample_rows = Some res ∧
    (∀ f v, grand_total res !! f = Some v →
            f ∈ numeric_fields ∧ is_number v = true) ∧
    Forall (λ ks : pyval * record, ∀ f v, ks.2 !! f = Some v →
              f ∈ numeric_fields ∧ is_number v = true)
           (subtotals res).
Proof.
  eexists. split; [vm_compute; reflexivity|].
  apply (totals_are_numbers sample_rows). vm_compute. reflexivity.
Defined.

(** *** Rows of one key *)

Lemma group_items_single rows k :
  rows ≠ [] → Forall (λ r, group_key r = k) rows → py_eq k k = true →
  group_items rows = [(k, rows)].
Proof.
  unfold group_items. induction rows as [|r rows IH] using rev_ind; [done|].
  intros _ [Hrows [Hr _]%Forall_cons]%Forall_app Hk.
  rewrite foldl_snoc. change (get r "ITEM" (VStr "Unknown")) with (group_key r).
  rewrite Hr. destruct rows as [|r0 rows]; [done|].
  rewrite IH by done. cbn [items_append]. by rewrite Hk.
Qed.

End RunFacts.

(** ** What [parse_excel_file] returns *)

Module ExcelSpec.
Import PyFacts SortFacts GroupFacts.
Import Sheets MoreTerms Excel StringFacts.

Section parse.
Variable float_repr : float → string.
Variable strip : string → string.
Variable int_of_str : string → option Z.
Variable float_of_str : string → option float.

Abbreviation field_value := (field_value float_repr strip int_of_str float_of_str).
Abbreviation fill_row := (fill_row float_repr strip int_of_str float_of_str).
Abbreviation parse_excel_file :=
  (parse_excel_file float_repr strip int_of_str float_of_str).
Abbreviation headers_of := (headers_of float_repr strip).

Lemma to_number_is_number value v :
  to_number float_repr int_of_str float_of_str value = Some v →
  is_number v = true.
Proof.
  unfold to_number. destruct (contains "." _).
  - destruct (to_float _ _) as [x| |]; simpl; [by intros [= <-]..|done].
  - destruct (to_int _ _) as [z| |]; simpl; [by intros [= <-]..|done].
Qed.

Lemma field_value_typed header value v :
  field_value header value = Some v →
  if numeric_header header then is_number v = true else is_text v = true.
Proof.
  unfold Excel.field_value.
  destruct value as [value|], (numeric_header header);
    try (by intros [= <-]). apply to_number_is_number.
Qed.

(** The loop over the headers sets every header, and nothing else. *)
Lemma fill_row_lookup row i headers (acc m : record) :
  fill_row row i headers acc = Some m →
  ∀ k, (is_Some (m !! k) ↔ k ∈ headers ∨ is_Some (acc !! k)) ∧
       (∀ v, m !! k = Some v →
          acc !! k = Some v ∨
          k ∈ headers ∧ ∃ value, field_value k value = Some v).
Proof.
  revert i acc. induction headers as [|h headers IH]; intros i acc; cbn [Excel.fill_row].
  - intros [= <-] k. split.
    + split; [by right|]. by intros [?%elem_of_nil|?].
    + intros v Hv. by left.
  - destruct (field_value h (cell_at row i)) as [w|] eqn:Hw;
      cbn [mbind option_bind]; [|done].
    intros Hm k. destruct (IH _ _ Hm k) as [Hkeys Hvals]. split.
    + rewrite Hkeys, elem_of_cons.
      destruct (decide (k = h)) as [->|Hne].
      * rewrite lookup_insert_eq. split; [by intros; left; left|by intros; right].
      * rewrite lookup_insert_ne by done. split.
        -- intros [?|?]; [by left; right|by right].
        -- intros [[?|?]|?]; [done|by left|by right].
    + intros v Hv. destruct (Hvals v Hv) as [Hacc|[Hin Hval]].
      * destruct (decide (k = h)) as [->|Hne].
        -- rewrite lookup_insert_eq in Hacc. injection Hacc as <-.
           right. split; [by left|]. by eexists.
        -- rewrite lookup_insert_ne in Hacc by done. by left.
      * right. split; [by right|done].
Qed.

(** What a returned row list is made of. *)
Lemma parse_excel_file_Some header_row rows data :
  parse_excel_file header_row rows = Some data →
  headers_of header_row ≠ [] ∧
  ∃ filled,
    Forall2 (λ row row_data, fill_row row 0 (headers_of header_row) ∅ = Some row_data)
            (filter (λ row, existsb truthy row = true) rows) filled ∧
    data = filter (λ row_data, any_value row_data = true) filled.
Proof.
  unfold Excel.parse_excel_file. cbv zeta.
  destruct (bool_decide (headers_of header_row = [])) eqn:Hh; [done|].
  apply bool_decide_eq_false in Hh.
  destruct (mapM _ _) as [filled|] eqn:Hfilled; cbn [mbind option_bind]; [|done].
  intros [= <-]. split; [done|]. exists filled. split; [|done].
  by apply mapM_Some_1 in Hfilled.
Qed.

Lemma parsed_row header_row rows data row_data :
  parse_excel_file header_row rows = Some data → row_data ∈ data →
  any_value row_data = true ∧
  ∃ row, row ∈ rows ∧
    fill_row row 0 (headers_of header_row) ∅ = Some row_data.
Proof.
  intros (_ & filled & Hfilled & ->)%parse_excel_file_Some
         [Hany Hin]%list_elem_of_filter.
  split; [done|].
  apply list_elem_of_lookup_1 in Hin as [i Hi].
  destruct (Forall2_lookup_r _ _ _ _ _ Hfilled Hi) as (row & Hrow & Hfill).
  exists row. split; [|done].
  apply list_elem_of_lookup_2 in Hrow.
  by apply list_elem_of_filter in Hrow as [_ ?].
Qed.

Lemma parsed_rows_keys header_row rows data :
  parse_excel_file header_row rows = Some data →
  Forall (λ row_data, ∀ k, is_Some (row_data !! k) ↔ k ∈ headers_of header_row)
         data.
Proof.
  intros Hdata. apply Forall_forall. intros row_data Hin k.
  destruct (parsed_row _ _ _ _ Hdata Hin) as (_ & row & _ & Hfill).
  rewrite (proj1 (fill_row_lookup _ _ _ _ _ Hfill k)), lookup_empty.
  split; [|by left]. intros [?|[? ?]]; done.
Qed.

(** X5. Every row that [parse_excel_file] returns has exactly the
    headers as its keys: a cell that is empty or beyond the end of its row
    still gives its header a value. *)
Theorem parsed_rows_have_the_headers header_row rows data :
  parse_excel_file header_row rows = Some data →
  Forall (λ row_data, ∀ k, is_Some (row_data !! k) ↔ k ∈ headers_of header_row)
         data.
Proof. apply parsed_rows_keys. Qed.

Lemma parsed_rows_typed header_row rows data :
  parse_excel_file header_row rows = Some data → Forall typed_row data.
Proof.
  intros Hdata. apply Forall_forall. intros row_data Hin k v Hv.
  destruct (parsed_row _ _ _ _ Hdata Hin) as (_ & row & _ & Hfill).
  destruct (proj2 (fill_row_lookup _ _ _ _ _ Hfill k) v Hv)
    as [Hempty|[_ [value Hvalue]]].
  - by rewrite lookup_empty in Hempty.
  - by apply field_value_typed in Hvalue.
Qed.

(** X6. In every row that [parse_excel_file] returns, a numeric header
    (one of [QTY/CTN], [CTNS], [NW], [GW], or one that contains [QTY],
    [WEIGHT] or [TOTAL]) holds an int or a float, and every other header
    holds a string, whatever the cells held. *)
Theorem parsed_values_are_typed header_row rows data :
  parse_excel_file header_row rows = Some data →
  Forall (λ row_data, ∀ k v, row_data !! k = Some v →
            if numeric_header k then is_number v = true
            else is_text v = true)
         data.
Proof. apply parsed_rows_typed. Qed.

(** X7. When [parse_excel_file] returns, the first row of the sheet
    has a cell that is true; there are at most as many returned rows as rows
    in the sheet; and every returned row has a value that is true: a row of
    zeros and empty strings only is dropped. *)
Theorem parsed_rows_are_not_blank header_row rows data :
  parse_excel_file header_row rows = Some data →
  (∃ value, value ∈ header_row ∧ truthy value = true) ∧
  (length data ≤ length rows)%nat ∧
  Forall (λ row_data, ∃ k v, row_data !! k = Some v ∧ truthy_value v = true)
         data.
Proof.
  intros Hdata.
  pose proof (parse_excel_file_Some _ _ _ Hdata) as (Hh & filled & Hfilled & ->).
  split; [|split].
  - unfold Excel.headers_of in Hh.
    destruct (filter _ header_row) as [|value l] eqn:Hf; [done|].
    exists value.
    assert (value ∈ filter (λ value, truthy value = true) header_row) as Hin.
    { rewrite Hf. by left. }
    by apply list_elem_of_filter in Hin as [? ?].
  - etrans; [apply length_filter|].
    rewrite <-(Forall2_length _ _ _ Hfilled). apply length_filter.
  - apply Forall_forall. intros row_data [Hany _]%list_elem_of_filter.
    unfold any_value in Hany.
    apply existsb_exists in Hany as (v & Hv%list_elem_of_In & Htrue).
    apply list_elem_of_fmap in Hv as ([k v'] & -> & Hkv%elem_of_map_to_list).
    by exists k, v'.
Qed.

(** X8. A blank cell in the header row does not keep its column:
    the headers are matched to the columns by their position among the
    non-blank header cells, so the sheet parses as if the blank header cell
    were not there. *)
Theorem blank_header_keeps_no_column pre value post rows :
  truthy value = false →
  parse_excel_file (pre ++ value :: post) rows
  = parse_excel_file (pre ++ post) rows.
Proof.
  intros Hvalue. unfold Excel.parse_excel_file, Excel.headers_of.
  rewrite !filter_app, filter_cons_False; [done|]. by rewrite Hvalue.
Qed.

(** *** Conversions *)

Abbreviation to_number := (to_number float_repr int_of_str float_of_str).

Lemma to_number_None value :
  to_number value = None ↔ overflowing float_repr value.
Proof.
  unfold Excel.to_number, overflowing. split.
  - destruct value as [|b|z|x|s|truth text]; cbn [str_of].
    + by destruct (contains "." "None").
    + by destruct b, (contains "." _).
    + by rewrite pretty_no_dot.
    + destruct (contains "." (float_repr x)) eqn:Hdot; [done|].
      cbn [to_int]. destruct (Prim2SF x) as [| s | |] eqn:Hx; try done.
      intros _. by exists x, s.
    + destruct (contains "." s); cbn [to_float to_int].
      * by destruct (float_of_str s).
      * by destruct (int_of_str s).
    + by destruct (contains "." text).
  - intros (x & s & -> & Hx & Hdot). cbn [str_of]. rewrite Hdot.
    cbn [to_int]. by rewrite Hx.
Qed.

Lemma field_value_None header value :
  field_value header value = None ↔
  numeric_header header = true ∧
  ∃ c, value = Some c ∧ overflowing float_repr c.
Proof.
  unfold Excel.field_value. destruct value as [c|].
  - destruct (numeric_header header).
    + rewrite to_number_None. split; [by eauto|].
      by intros [_ (c' & [= <-] & ?)].
    + split; [done|]. by intros [? _].
  - split; [done|]. by intros [_ (c & ? & _)].
Qed.

(** X9. Under a numeric header an int cell is stored as that int, a bool
    cell as 0 or 1, a cell with another object (a date) as 0, and an empty
    or missing cell as 0, whatever [str] of a float and [int] and [float] of
    a string do. *)
Theorem numeric_cells (header : string) :
  numeric_header header = true →
  (∀ z, field_value header (Some (CInt z)) = Some (VInt z)) ∧
  (∀ b, field_value header (Some (CBool b)) = Some (VInt (Z.b2z b))) ∧
  (∀ truth text, field_value header (Some (COther truth text))
                 = Some (VInt 0)) ∧
  field_value header None = Some (VInt 0).
Proof.
  intros Hh. unfold Excel.field_value, Excel.to_number. rewrite Hh.
  split; [|split; [|split]].
  - intros z. cbn [str_of]. by rewrite pretty_no_dot.
  - by intros [].
  - intros truth text. cbn [str_of to_float to_int]. by destruct (contains _ _).
  - done.
Qed.

(** *** Raising *)

Lemma cell_at_Some row i c :
  cell_at row i = Some c ↔ row !! i = Some c ∧ c ≠ CNone.
Proof.
  unfold cell_at. destruct (row !! i) as [[]|]; split;
    try (by intros [= <-]); try (by intros [[= <-] ?]); by intros [? ?].
Qed.

Lemma fill_row_None row i headers (acc : record) :
  fill_row row i headers acc = None ↔
  ∃ j header c, headers !! j = Some header ∧
    numeric_header header = true ∧
    row !! (i + j)%nat = Some c ∧ overflowing float_repr c.
Proof.
  revert i acc. induction headers as [|h headers IH]; intros i acc;
    cbn [Excel.fill_row].
  - split; [done|]. by intros (j & header & c & ? & _).
  - destruct (field_value h (cell_at row i)) as [v|] eqn:Hv;
      cbn [mbind option_bind].
    + rewrite IH. split.
      * intros (j & header & c & Hj & Hn & Hc & Ho).
        exists (S j), header, c. split; [done|]. split; [done|].
        split; [|done]. by rewrite <-Nat.add_succ_comm.
      * intros ([|j] & header & c & Hj & Hn & Hc & Ho).
        -- injection Hj as <-. rewrite Nat.add_0_r in Hc.
           assert (field_value h (cell_at row i) = None); [|congruence].
           apply field_value_None. split; [done|]. exists c. split; [|done].
           apply cell_at_Some. split; [done|].
           by destruct Ho as (x & s & -> & _).
        -- exists j, header, c. split; [done|]. split; [done|].
           split; [|done]. by rewrite Nat.add_succ_comm.
    + split; [|done]. intros _.
      apply field_value_None in Hv as [Hn (c & [Hc _]%cell_at_Some & Ho)].
      exists 0%nat, h, c. split; [done|]. split; [done|].
      split; [|done]. by rewrite Nat.add_0_r.
Qed.

(** X10. [parse_excel_file] raises in two cases only: the first row has
    no cell that is true, or a row that is not blank holds, at the position
    that a numeric header has among the headers, an infinite float whose
    [str] has no ['.'] (so that [int] is called on it). *)
Theorem parse_raises_only_for header_row rows :
  parse_excel_file header_row rows = None ↔
  (∀ value, value ∈ header_row → truthy value = false) ∨
  ∃ row j header c, row ∈ rows ∧ existsb truthy row = true ∧
    headers_of header_row !! j = Some header ∧
    numeric_header header = true ∧
    row !! j = Some c ∧ overflowing float_repr c.
Proof.
  unfold Excel.parse_excel_file. cbv zeta.
  destruct (bool_decide (headers_of header_row = [])) eqn:Hh.
  - apply bool_decide_eq_true in Hh. split; [|done]. intros _. left.
    intros value Hin. destruct (truthy value) eqn:Ht; [|done].
    assert (value ∈ filter (λ value, truthy value = true) header_row) as Hf.
    { by apply list_elem_of_filter. }
    unfold Excel.headers_of in Hh. apply fmap_nil_inv in Hh.
    rewrite Hh in Hf. by apply elem_of_nil in Hf.
  - apply bool_decide_eq_false in Hh.
    destruct (mapM _ _) as [filled|] eqn:Hm; cbn [mbind option_bind].
    + split; [done|]. intros [Hblank|(row & j & header & c & Hin & Hany & Hrest)].
      * destruct Hh. unfold Excel.headers_of.
        rewrite (filter_none (λ value, truthy value = true)); [done|].
        apply Forall_forall. intros value Hin. by rewrite (Hblank value Hin).
      * exfalso. apply mapM_Some_1 in Hm.
        assert (row ∈ filter (λ row, existsb truthy row = true) rows) as Hf.
        { by apply list_elem_of_filter. }
        apply list_elem_of_lookup_1 in Hf as [i Hi].
        destruct (Forall2_lookup_l _ _ _ _ _ Hm Hi) as (row_data & _ & Hfill).
        assert (fill_row row 0 (headers_of header_row) ∅ = None);
          [|congruence].
        apply fill_row_None. by exists j, header, c.
    + split; [|done]. intros _. right.
      apply mapM_None_1, Exists_exists in Hm
        as (row & [Hany Hin]%list_elem_of_filter & Hfill).
      apply fill_row_None in Hfill as (j & header & c & ?).
      by exists row, j, header, c.
Qed.

End parse.

Import MoreSamples.

Lemma parsed_rows_have_the_headers_witness :
  ∃ data, parse_sample = Some data ∧
    Forall (λ row_data, ∀ k, is_Some (row_data !! k) ↔
              k ∈ headers_of repr_dotted strip_nothing sheet_header) data.
Proof.
  eexists. split; [vm_compute; reflexivity|].
  apply (parsed_rows_have_the_headers repr_dotted strip_nothing parse_no_int parse_no_float
           sheet_header sheet_rows).
  vm_compute. reflexivity.
Defined.

Lemma parsed_values_are_typed_witness :
  ∃ data, parse_sample = Some data ∧
    Forall (λ row_data, ∀ k v, row_data !! k = Some v →
              if numeric_header k then is_number v = true
              else is_text v = true) data.
Proof.
  eexists. split; [vm_compute; reflexivity|].
  apply (parsed_values_are_typed repr_dotted strip_nothing parse_no_int parse_no_float
           sheet_header sheet_rows).
  vm_compute. reflexivity.
Defined.

Lemma parsed_rows_are_not_blank_witness :
  ∃ data, parse_sample = Some data ∧
    (∃ value, value ∈ sheet_header ∧ truthy value = true) ∧
    (length data ≤ length sheet_rows)%nat ∧
    Forall (λ row_data, ∃ k v, row_data !! k = Some v ∧
                               truthy_value v = true) data.
Proof.
  eexists. split; [vm_compute; reflexivity|].
  apply (parsed_rows_are_not_blank repr_dotted strip_nothing parse_no_int parse_no_float
           sheet_header sheet_rows).
  vm_compute. reflexivity.
Defined.

Lemma blank_header_keeps_no_column_witness :
  truthy CNone = false ∧
  parse_excel_file repr_dotted strip_nothing parse_no_int parse_no_float
    ([CStr "ITEM"] ++ CNone :: [CStr "CTNS"; CStr "NW"]) sheet_rows
  = parse_excel_file repr_dotted strip_nothing parse_no_int parse_no_float
      ([CStr "ITEM"] ++ [CStr "CTNS"; CStr "NW"]) sheet_rows.
Proof.
  split; [reflexivity|].
  apply (blank_header_keeps_no_column repr_dotted strip_nothing parse_no_int parse_no_float
           [CStr "ITEM"] CNone [CStr "CTNS"; CStr "NW"] sheet_rows).
  reflexivity.
Defined.

Lemma numeric_cells_witness :
  numeric_header "CTNS" = true ∧
  (∀ z, field_value repr_dotted strip_nothing parse_no_int parse_no_float "CTNS" (Some (CInt z))
        = Some (VInt z)) ∧
  (∀ b, field_value repr_dotted strip_nothing parse_no_int parse_no_float "CTNS" (Some (CBool b))
        = Some (VInt (Z.b2z b))) ∧
  (∀ truth text,
     field_value repr_dotted strip_nothing parse_no_int parse_no_float "CTNS"
                 (Some (COther truth text)) = Some (VInt 0)) ∧
  field_value repr_dotted strip_nothing parse_no_int parse_no_float "CTNS" None = Some (VInt 0).
Proof.
  split; [reflexivity|].
  apply (numeric_cells repr_dotted strip_nothing parse_no_int parse_no_float "CTNS").
  reflexivity.
Defined.

End ExcelSpec.

(** ** What the handlers answer *)

Module RoutesSpec.
Import PyFacts SortFacts GroupFacts DeriveFacts SheetsSpec RunFacts ExcelSpec.
Import Sheets MoreTerms Excel Routes.

Lemma report_of_Ok sheets_data res :
  report_of sheets_data = Ok res →
  ∃ processed,
    Forall2 (λ row row', process_row row = Some row') sheets_data processed ∧
    sort_and_subtotal processed = Some res.
Proof.
  unfold report_of.
  destruct (process_data sheets_data) as [processed|] eqn:Hp;
    cbn [mbind option_bind]; [|done].
  destruct (sort_and_subtotal processed) as [res'|] eqn:Hres; [|done].
  intros [= <-]. exists processed. split; [|done].
  by apply mapM_Some_1 in Hp.
Qed.

Lemma report_of_returns sheets_data processed res :
  process_data sheets_data = Some processed →
  sort_and_subtotal processed = Some res →
  report_of sheets_data = Ok res.
Proof. intros Hp Hres. unfold report_of. by rewrite Hp; cbn; rewrite Hres. Qed.

(** *** Groups have rows *)

Lemma items_append_nonempty items item row :
  Forall (λ kr : pyval * list record, kr.2 ≠ []) items →
  Forall (λ kr : pyval * list record, kr.2 ≠ []) (items_append items item row).
Proof.
  induction 1 as [|[k rows] items Hk Hitems IH]; cbn [items_append].
  - by repeat constructor.
  - destruct (py_eq k item); constructor; try done.
    cbn. by destruct rows.
Qed.

Lemma group_items_nonempty rows :
  Forall (λ kr : pyval * list record, kr.2 ≠ []) (group_items rows).
Proof.
  unfold group_items. induction rows as [|r rows IH] using rev_ind.
  - constructor.
  - rewrite foldl_snoc. by apply items_append_nonempty.
Qed.

Lemma group_items_nil rows : group_items rows = [] → rows = [].
Proof.
  intros H. pose proof (group_items_concat rows) as Hperm.
  rewrite H in Hperm. by apply Permutation_nil_l in Hperm.
Qed.

(** X11. A report that [process_sheets_data] answers with status 200
    has as many data rows as the request, at least one, and at least one
    subtotal: for an empty list the handler answers 400, never the empty
    report. *)
Theorem answered_report_has_rows (sheets_data : option (list record))
    (res : result) :
  process_sheets_data sheets_data = Ok res →
  ∃ rows, sheets_data = Some rows ∧ rows ≠ [] ∧
    length (data res) = length rows ∧
    data res ≠ [] ∧ subtotals res ≠ [].
Proof.
  destruct sheets_data as [[|row rows]|]; cbn [process_sheets_data];
    [done| |done].
  intros (processed & Hp & Hres)%report_of_Ok.
  exists (row :: rows). split; [done|]. split; [done|].
  pose proof (data_perm _ _ Hres) as Hperm.
  assert (length (data res) = length (row :: rows)) as Hlen.
  { by rewrite Hperm, <-(Forall2_length _ _ _ Hp). }
  assert (data res ≠ []) as Hdata.
  { intros Hnil. by rewrite Hnil in Hlen. }
  split; [done|]. split; [done|].
  destruct (sort_and_subtotal_Some _ _ Hres) as (_ & Hsubs & _).
  intros Hnil. rewrite Hnil in Hsubs. apply Forall2_nil_inv_r in Hsubs.
  by apply group_items_nil in Hsubs.
Qed.

Lemma answered_report_has_rows_witness :
  ∃ res, process_sheets_data (Some sample_data) = Ok res ∧
  ∃ rows, Some sample_data = Some rows ∧ rows ≠ [] ∧
    length (data res) = length rows ∧
    data res ≠ [] ∧ subtotals res ≠ [].
Proof.
  eexists. split; [vm_compute; reflexivity|].
  apply (answered_report_has_rows (Some sample_data)). vm_compute. reflexivity.
Defined.

(** *** Totals of derived rows *)

Lemma process_row_units row row' :
  int_units row → process_row row = Some row' →
  row' !! "TOTAL" = Some (VInt (units row)) ∧ row' !! "ITEM" = row !! "ITEM".
Proof.
  intros (qty & ctns & Hq & Hc) Hrow.
  rewrite !(process_row_lookup _ _ _ Hrow). split; [|done].
  cbn. unfold derived, units. by rewrite Hq, Hc.
Qed.

Lemma total_values rows processed :
  Forall2 (λ row row', process_row row = Some row') rows processed →
  Forall int_units rows →
  field_values "TOTAL" processed = (λ row, VInt (units row)) <$> rows ∧
  Forall (no_float "TOTAL") processed.
Proof.
  induction 1 as [|row row' rows processed Hrow _ IH]; [done|].
  intros [Hu Hrows]%Forall_cons. destruct (IH Hrows) as [IHv IHn].
  destruct (process_row_units _ _ Hu Hrow) as [Htotal _]. split.
  - rewrite GroupFacts.field_values_cons, Htotal. cbn. by rewrite IHv.
  - constructor; [|done]. intros x. by rewrite Htotal.
Qed.

Lemma int_total_units rows :
  Terms.int_total ((λ row, VInt (units row)) <$> rows) = total_units rows.
Proof.
  unfold Terms.int_total, total_units.
  induction rows as [|row rows IH]; csimpl; [done|]. by rewrite IH.
Qed.

Lemma field_total_units rows processed :
  rows ≠ [] →
  Forall2 (λ row row', process_row row = Some row') rows processed →
  Forall int_units rows →
  Terms.field_total "TOTAL" processed = Some (VInt (total_units rows)).
Proof.
  intros Hne Hp Hu. destruct (total_values _ _ Hp Hu) as [Hv Hno].
  unfold Terms.field_total.
  assert (Terms.has_field "TOTAL" processed = true) as ->.
  { destruct Hp as [|row row' rows processed Hrow _]; [done|].
    apply Forall_cons in Hu as [Hu _].
    destruct (process_row_units _ _ Hu Hrow) as [Htotal _].
    cbn. by rewrite Htotal. }
  rewrite (GroupFacts.sum_field_ints _ _ Hno), Hv, int_total_units.
  reflexivity.
Qed.

Lemma Forall2_group_rows item rows processed :
  Forall2 (λ row row', process_row row = Some row') rows processed →
  Forall int_units rows →
  Forall2 (λ row row', process_row row = Some row')
          (Terms.group_rows item rows) (Terms.group_rows item processed).
Proof.
  unfold Terms.group_rows.
  induction 1 as [|row row' rows processed Hrow _ IH]; [constructor|].
  intros [Hu Hrows]%Forall_cons.
  destruct (process_row_units _ _ Hu Hrow) as [_ Hitem].
  assert (Terms.group_key row' = Terms.group_key row) as Hkey.
  { unfold Terms.group_key, get. by rewrite Hitem. }
  rewrite !filter_cons, Hkey.
  destruct (decide (py_eq item (Terms.group_key row) = true));
    [constructor|]; auto.
Qed.

(** X12. When [QTY/CTN] and [CTNS] are ints in every row of the
    request, the report that [process_sheets_data] answers has, as grand
    total of [TOTAL], the sum of the products [QTY/CTN * CTNS] of all rows,
    and as subtotal of [TOTAL] of every item the sum of the products of the
    rows of that item, whatever [TOTAL] the request held. *)
Theorem totals_are_sums_of_products (rows : list record) (res : result) :
  Forall int_units rows →
  process_sheets_data (Some rows) = Ok res →
  grand_total res !! "TOTAL" = Some (VInt (total_units rows)) ∧
  ∀ item sub, (item, sub) ∈ subtotals res → py_eq item item = true →
    sub !! "TOTAL"
    = Some (VInt (total_units (Terms.group_rows item rows))).
Proof.
  intros Hu Hrep.
  assert (rows ≠ []) as Hne by (by destruct rows).
  assert (report_of rows = Ok res) as Hrep' by (by destruct rows).
  destruct (report_of_Ok _ _ Hrep') as (processed & Hp & Hres).
  destruct (total_values _ _ Hp Hu) as [_ Hno].
  pose proof (data_perm _ _ Hres) as Hperm.
  split.
  - destruct (sort_and_subtotal_Some _ _ Hres) as (_ & _ & Hg).
    rewrite (proj1 (GroupFacts.totals_spec _ _ Hg "TOTAL")).
    rewrite (field_total_perm_int _ _ _ Hperm) by (by rewrite Hperm).
    by apply field_total_units.
  - intros item sub Hin Hrefl.
    rewrite (subtotals_entry _ _ _ _ Hres Hin Hrefl "TOTAL").
    assert (Terms.group_rows item (data res) ≡ₚ Terms.group_rows item processed)
      as Hgroup.
    { unfold Terms.group_rows. by rewrite Hperm. }
    assert (Forall (no_float "TOTAL") (Terms.group_rows item (data res)))
      as Hno'.
    { apply Forall_forall. intros r [_ Hr]%list_elem_of_filter.
      rewrite Forall_forall in Hno. apply Hno. by rewrite <-Hperm. }
    rewrite (field_total_perm_int _ _ _ Hgroup Hno').
    apply field_total_units.
    + (* the group of a subtotal has a row *)
      destruct (sort_and_subtotal_Some _ _ Hres) as (_ & Hsubs & _).
      apply list_elem_of_lookup_1 in Hin as [i Hi].
      destruct (Forall2_lookup_r _ _ _ _ _ Hsubs Hi)
        as ([k group] & Hk & Hks & _). cbn in Hks. subst k.
      destruct (GroupFacts.group_items_spec (data res)) as (_ & Hrows & _).
      rewrite Forall_lookup in Hrows. specialize (Hrows _ _ Hk Hrefl).
      pose proof (group_items_nonempty (data res)) as Hnonempty.
      rewrite Forall_lookup in Hnonempty. specialize (Hnonempty _ _ Hk).
      cbn in Hrows, Hnonempty. rewrite Hrows in Hnonempty.
      intros Hnil. apply Hnonempty.
      apply Permutation_nil_r. rewrite Hgroup.
      pose proof (Forall2_group_rows item _ _ Hp Hu) as Hg2.
      rewrite Hnil in Hg2. by apply Forall2_nil_inv_l in Hg2 as ->.
    + by apply Forall2_group_rows.
    + apply Forall_forall. intros r [_ Hr]%list_elem_of_filter.
      rewrite Forall_forall in Hu. by apply Hu.
Qed.

Lemma totals_are_sums_of_products_witness :
  Forall int_units sample_data ∧
  ∃ res, process_sheets_data (Some sample_data) = Ok res ∧
    grand_total res !! "TOTAL" = Some (VInt (total_units sample_data)) ∧
    ∀ item sub, (item, sub) ∈ subtotals res → py_eq item item = true →
      sub !! "TOTAL"
      = Some (VInt (total_units (Terms.group_rows item sample_data))).
Proof.
  assert (Forall int_units sample_data) as Hu.
  { repeat constructor; eexists _, _; split; reflexivity. }
  split; [exact Hu|]. eexists. split; [vm_compute; reflexivity|].
  apply (totals_are_sums_of_products sample_data); [exact Hu|].
  vm_compute. reflexivity.
Defined.

(** *** Uploaded sheets *)

Lemma float_limit_above : 2 ^ 192 < float_limit.
Proof. vm_compute. reflexivity. Qed.

Lemma typed_row_number row k v :
  typed_row row → k ∈ ["QTY/CTN"; "CTNS"; "NW"; "GW"] →
  row !! k = Some v → is_number v = true.
Proof.
  intros Ht Hk Hv. specialize (Ht k v Hv).
  repeat (apply elem_of_cons in Hk as [->|Hk]); [done..|].
  by apply elem_of_nil in Hk.
Qed.

Lemma small_number_in_range v :
  is_number v = true → small_int v = true → Terms.in_range v.
Proof.
  destruct v as [| |z| |]; try done. cbn. intros _ Hz%bool_decide_eq_true.
  pose proof float_limit_above. lia.
Qed.

(** The product of two small numbers is a float or an int below [2^128]. *)
Lemma py_mul_bound x y v z :
  is_number x = true → is_number y = true →
  small_int x = true → small_int y = true →
  py_mul x y = Some v → int_of v = Some z → Z.abs z < 2 ^ 128.
Proof.
  destruct x as [| |p|p|], y as [| |q|q|]; try done; intros _ _.
  - cbn. intros Hp%bool_decide_eq_true Hq%bool_decide_eq_true [= <-] [= <-].
    rewrite Z.abs_mul. nia.
  - intros _ _. unfold py_mul, arith. cbn [int_of float_of].
    destruct (float_of_Z p); [|done]. by intros [= <-].
  - intros _ _. unfold py_mul, arith. cbn [int_of float_of].
    destruct (float_of_Z q); [|done]. by intros [= <-].
  - intros _ _. unfold py_mul, arith. cbn [int_of float_of]. by intros [= <-].
Qed.

Lemma typed_int row k v z :
  typed_row row → map_Forall (λ _ v, small_int v = true) row →
  row !! k = Some v → int_of v = Some z → Z.abs z < 2 ^ 128.
Proof.
  intros Ht Hs Hv Hz. specialize (Ht k v Hv). specialize (Hs k v Hv).
  destruct (numeric_header k), v as [| |w| |]; try done.
  cbn in Hs, Hz. apply bool_decide_eq_true in Hs. injection Hz as <-. lia.
Qed.

Lemma derived_bound dst a b row v z :
  typed_row row → map_Forall (λ _ v, small_int v = true) row →
  a ∈ ["QTY/CTN"; "CTNS"; "NW"; "GW"] → b ∈ ["QTY/CTN"; "CTNS"; "NW"; "GW"] →
  Terms.derived dst a b row = Some v → int_of v = Some z →
  Z.abs z < 2 ^ 128.
Proof.
  intros Ht Hs Ha Hb. unfold Terms.derived.
  destruct (row !! a) as [x|] eqn:Hx; [|by apply typed_int].
  destruct (row !! b) as [y|] eqn:Hy; [|by apply typed_int].
  apply py_mul_bound.
  - exact (typed_row_number row a x Ht Ha Hx).
  - exact (typed_row_number row b y Ht Hb Hy).
  - exact (Hs a x Hx).
  - exact (Hs b y Hy).
Qed.

Lemma processed_row row row' :
  typed_row row → map_Forall (λ _ v, small_int v = true) row →
  process_row row = Some row' →
  Terms.str_item row' = true ∧
  ∀ k v z, row' !! k = Some v → int_of v = Some z → Z.abs z < 2 ^ 128.
Proof.
  intros Ht Hs Hrow. split.
  - unfold Terms.str_item. rewrite (process_row_lookup _ _ _ Hrow). cbn.
    destruct (row !! "ITEM") as [v|] eqn:Hv; [|done].
    specialize (Ht _ _ Hv). cbn in Ht. by destruct v.
  - intros k v z. rewrite (process_row_lookup _ _ _ Hrow).
    repeat case_decide.
    + apply derived_bound; try done; set_solver.
    + apply derived_bound; try done; set_solver.
    + apply derived_bound; try done; set_solver.
    + by apply typed_int.
Qed.

Lemma field_values_mass f rows :
  Forall (λ row : record, ∀ v z, row !! f = Some v → int_of v = Some z →
                                 Z.abs z < 2 ^ 128) rows →
  Terms.int_mass (Terms.field_values f rows)
  ≤ Z.of_nat (length rows) * 2 ^ 128.
Proof.
  assert (0 < 2 ^ 128) as Hpos by done.
  induction 1 as [|row rows Hrow _ IH]; [done|].
  rewrite GroupFacts.field_values_cons.
  assert (Z.of_nat (length (row :: rows)) = 1 + Z.of_nat (length rows)) as ->.
  { cbn [length]. lia. }
  revert Hrow IH Hpos. generalize (2 ^ 128). intros B Hrow IH Hpos.
  destruct (row !! f) as [v|] eqn:Hv; [|nia].
  destruct (is_numeric v); [|nia].
  cbn [Terms.int_mass foldr]. fold (Terms.int_mass (Terms.field_values f rows)).
  destruct (int_of v) as [z|] eqn:Hz; cbn [default].
  - specialize (Hrow v z eq_refl Hz). unfold id. nia.
  - change (Z.abs 0) with 0. nia.
Qed.

Section upload.
Variable float_repr : float → string.
Variable strip : string → string.
Variable int_of_str : string → option Z.
Variable float_of_str : string → option float.
Variable lower : string → string.

Abbreviation parse_excel_file :=
  (Excel.parse_excel_file float_repr strip int_of_str float_of_str).
Abbreviation upload_excel_file :=
  (Routes.upload_excel_file float_repr strip int_of_str float_of_str lower).

(** Parsed rows with small ints go through both stages. *)
Lemma parsed_rows_report header_row rows data :
  parse_excel_file header_row rows = Some data →
  small_ints data → Z.of_nat (length data) < 2 ^ 64 →
  ∃ res, report_of data = Ok res.
Proof.
  intros Htyped%parsed_rows_typed Hsmall Hlen. unfold small_ints in Hsmall.
  assert (is_Some (process_data data)) as [processed Hp].
  { apply mapM_is_Some. apply Forall_forall. intros row Hrow.
    rewrite Forall_forall in Htyped. rewrite Forall_forall in Hsmall.
    apply process_row_numeric. intros k v Hk Hv.
    apply small_number_in_range.
    - exact (typed_row_number row k v (Htyped row Hrow) Hk Hv).
    - exact (Hsmall row Hrow k v Hv). }
  pose proof Hp as Hrows%mapM_Some_1.
  assert (Forall (λ row', Terms.str_item row' = true ∧
            ∀ k v z, row' !! k = Some v → int_of v = Some z →
                     Z.abs z < 2 ^ 128) processed) as Hprocessed.
  { clear Hp Hlen. induction Hrows as [|row row' data processed Hrow _ IH];
      [constructor|].
    apply Forall_cons in Htyped as [Ht Htyped].
    apply Forall_cons in Hsmall as [Hs Hsmall].
    constructor; [by eapply processed_row|by apply IH]. }
  destruct (sort_and_subtotal_returns processed) as [res Hres].
  - eapply Forall_impl; [exact Hprocessed|]. by intros row' [? _].
  - intros f Hf.
    eapply Z.le_lt_trans; [apply field_values_mass|].
    + eapply Forall_impl; [exact Hprocessed|]. intros row' [_ Hb] v z.
      apply Hb.
    + rewrite <-(Forall2_length _ _ _ Hrows).
      pose proof float_limit_above. nia.
  - exists res. by eapply report_of_returns.
Qed.

(** X13. For a sheet that parses into fewer than [2^64] rows whose
    ints are below [2^64] in absolute value, [upload_excel_file] does not
    answer 500: the parsed rows hold numbers where the derivation multiplies
    and strings in [ITEM], so neither stage raises. *)
Theorem upload_fails_only_on_large_ints filename header_row rows data :
  parse_excel_file header_row rows = Some data →
  small_ints data → Z.of_nat (length data) < 2 ^ 64 →
  upload_excel_file (Some (filename, Some (header_row, rows))) ≠ Failed.
Proof.
  intros Hdata Hsmall Hlen. cbn [Routes.upload_excel_file].
  destruct (String.eqb filename ""); [done|].
  destruct (negb _); [done|]. cbn [mbind option_bind]. rewrite Hdata.
  destruct (parsed_rows_report _ _ _ Hdata Hsmall Hlen) as [res Hres].
  destruct data; [done|]. by rewrite Hres.
Qed.

Lemma upload_Ok filename header_row rows res :
  upload_excel_file (Some (filename, Some (header_row, rows))) = Ok res →
  ∃ data processed,
    parse_excel_file header_row rows = Some data ∧ data ≠ [] ∧
    Forall2 (λ row row', process_row row = Some row') data processed ∧
    sort_and_subtotal processed = Some res.
Proof.
  cbn [Routes.upload_excel_file].
  destruct (String.eqb filename ""); [done|].
  destruct (negb _); [done|]. cbn [mbind option_bind].
  destruct (parse_excel_file header_row rows) as [[|row data]|] eqn:Hdata;
    [done| |done].
  intros (processed & Hp & Hres)%report_of_Ok.
  by exists (row :: data), processed.
Qed.

(** X14. In a report that [upload_excel_file] answers, for a sheet with
    an [ITEM] header the subtotals come in strictly ascending order of
    [ITEM], one for each distinct item, and the groups, one after another,
    are the data rows; for a sheet without an [ITEM] header there is the one
    subtotal "Unknown". *)
Theorem uploaded_items_in_order filename header_row rows res :
  upload_excel_file (Some (filename, Some (header_row, rows))) = Ok res →
  if bool_decide ("ITEM" ∈ Excel.headers_of float_repr strip header_row)
  then
    let keys := DataStructure.unique (Terms.sort_key <$> data res) in
    StronglySorted Terms.str_lt keys ∧
    (subtotals res).*1 = VStr <$> keys ∧
    concat (snd <$> group_items (data res)) = data res
  else (subtotals res).*1 = [VStr "Unknown"].
Proof.
  intros (sheet_data & processed & Hdata & Hne & Hp & Hres)%upload_Ok.
  pose proof (parsed_rows_keys _ _ _ _ _ _ _ Hdata) as Hkeys.
  pose proof (parsed_rows_typed _ _ _ _ _ _ _ Hdata) as Htyped.
  assert (∀ row', row' ∈ processed → ∃ row, row ∈ sheet_data ∧
            row' !! "ITEM" = row !! "ITEM") as Hitem.
  { intros row' (i & Hi)%list_elem_of_lookup_1.
    destruct (Forall2_lookup_r _ _ _ _ _ Hp Hi) as (row & Hrow & Hproc).
    exists row. split; [by eapply list_elem_of_lookup_2|].
    by rewrite (process_row_lookup _ _ _ Hproc). }
  rewrite Forall_forall in Hkeys. rewrite Forall_forall in Htyped.
  case_bool_decide as Hh.
  - destruct (report_runs processed res) as (Hs & Hk & _ & Hc); [|done|done].
    apply Forall_forall. intros row' (row & Hin & Heq)%Hitem.
    unfold named_item. rewrite Heq.
    destruct (proj2 (Hkeys row Hin "ITEM") Hh) as [v Hv]. rewrite Hv.
    specialize (Htyped row Hin "ITEM" v Hv). by destruct v.
  - destruct (sort_and_subtotal_Some _ _ Hres) as (_ & Hsubs & _).
    assert (group_items (data res) = [(VStr "Unknown", data res)]) as Hg.
    { apply group_items_single; [| |done].
      - intros Hnil. apply Hne.
        pose proof (data_perm _ _ Hres) as Hperm. rewrite Hnil in Hperm.
        apply Permutation_nil_l in Hperm. subst processed.
        by apply Forall2_nil_inv_r in Hp.
      - rewrite (data_perm _ _ Hres). apply Forall_forall.
        intros row' (row & Hin & Heq)%Hitem.
        unfold Terms.group_key, get. rewrite Heq.
        destruct (row !! "ITEM") as [v|] eqn:Hv; [|done].
        destruct Hh. apply (Hkeys row Hin "ITEM"). by exists v. }
    rewrite Hg in Hsubs.
    apply Forall2_cons_inv_l in Hsubs as (ks & subs & [Hks _] & Hnil & ->).
    apply Forall2_nil_inv_l in Hnil as ->. cbn. by rewrite Hks.
Qed.

Lemma process_row_keeps_keys row row' k :
  process_row row = Some row' → is_Some (row !! k) → is_Some (row' !! k).
Proof.
  intros Hrow Hk. pose proof (process_row_products _ _ Hrow) as HP.
  rewrite !Forall_cons in HP. destruct HP as (P1 & P2 & P3 & _).
  rewrite (process_row_lookup _ _ _ Hrow). unfold Terms.derived.
  repeat case_decide; subst; try done.
  - destruct (row !! "QTY/CTN") as [x|] eqn:Hx; [|done].
    destruct (row !! "CTNS") as [y|] eqn:Hy; [|done]. by apply P1.
  - destruct (row !! "CTNS") as [x|] eqn:Hx; [|done].
    destruct (row !! "NW") as [y|] eqn:Hy; [|done]. by apply P2.
  - destruct (row !! "CTNS") as [x|] eqn:Hx; [|done].
    destruct (row !! "GW") as [y|] eqn:Hy; [|done]. by apply P3.
Qed.

(** X15. The headers that [get_file_headers] answers for a file are
    keys of every data row of the report that [upload_excel_file] answers
    for it, and there is at least one. *)
Theorem announced_headers_are_keys filename header_row rows headers res :
  get_file_headers float_repr strip lower (Some (filename, Some header_row))
    = Ok headers →
  upload_excel_file (Some (filename, Some (header_row, rows))) = Ok res →
  headers ≠ [] ∧
  Forall (λ row : record, ∀ k, k ∈ headers → is_Some (row !! k)) (data res).
Proof.
  intros Hheaders
    (sheet_data & processed & Hdata & _ & Hp & Hres)%upload_Ok.
  assert (headers = Excel.headers_of float_repr strip header_row) as ->.
  { revert Hheaders. cbn [get_file_headers].
    destruct (String.eqb filename ""); [done|].
    destruct (negb _); [done|]. by intros [= <-]. }
  split.
  - by apply parse_excel_file_Some in Hdata as [? _].
  - rewrite (data_perm _ _ Hres). apply Forall_forall.
    intros row' (i & Hi)%list_elem_of_lookup_1 k Hk.
    destruct (Forall2_lookup_r _ _ _ _ _ Hp Hi) as (row & Hrow & Hproc).
    apply (process_row_keeps_keys _ _ _ Hproc).
    pose proof (parsed_rows_keys _ _ _ _ _ _ _ Hdata) as Hkeys.
    rewrite Forall_forall in Hkeys. apply (Hkeys row); [|done].
    by eapply list_elem_of_lookup_2.
Qed.

End upload.

Import MoreSamples.

Lemma upload_fails_only_on_large_ints_witness :
  parse_sample = Some sheet_data ∧ small_ints sheet_data ∧
  Z.of_nat (length sheet_data) < 2 ^ 64 ∧
  upload_excel_file repr_dotted strip_nothing parse_no_int parse_no_float
    lower_nothing (Some ("stock.xlsx", Some (sheet_header, sheet_rows)))
  ≠ Failed.
Proof.
  assert (parse_sample = Some sheet_data) as Hdata.
  { vm_compute. reflexivity. }
  assert (small_ints sheet_data) as Hsmall.
  { repeat constructor;
      repeat (apply map_Forall_insert_2; [reflexivity|]);
      apply map_Forall_empty. }
  split; [exact Hdata|]. split; [exact Hsmall|]. split; [reflexivity|].
  exact (upload_fails_only_on_large_ints repr_dotted strip_nothing
           parse_no_int parse_no_float lower_nothing "stock.xlsx"
           sheet_header sheet_rows sheet_data Hdata Hsmall eq_refl).
Defined.

Lemma uploaded_items_in_order_witness :
  ∃ res,
    upload_excel_file repr_dotted strip_nothing parse_no_int parse_no_float lower_nothing
      (Some ("stock.xlsx", Some (sheet_header, sheet_rows))) = Ok res ∧
    if bool_decide ("ITEM" ∈ Excel.headers_of repr_dotted strip_nothing sheet_header)
    then
      let keys := DataStructure.unique (Terms.sort_key <$> data res) in
      StronglySorted Terms.str_lt keys ∧
      (subtotals res).*1 = VStr <$> keys ∧
      concat (snd <$> group_items (data res)) = data res
    else (subtotals res).*1 = [VStr "Unknown"].
Proof.
  eexists. split; [vm_compute; reflexivity|].
  apply (uploaded_items_in_order repr_dotted strip_nothing parse_no_int parse_no_float lower_nothing
           "stock.xlsx" sheet_header sheet_rows).
  vm_compute. reflexivity.
Defined.

Lemma announced_headers_are_keys_witness :
  ∃ headers res,
    get_file_headers repr_dotted strip_nothing lower_nothing
      (Some ("stock.xlsx", Some sheet_header)) = Ok headers ∧
    upload_excel_file repr_dotted strip_nothing parse_no_int parse_no_float
      lower_nothing (Some ("stock.xlsx", Some (sheet_header, sheet_rows)))
    = Ok res ∧
    headers ≠ [] ∧
    Forall (λ row : record, ∀ k, k ∈ headers → is_Some (row !! k)) (data res).
Proof.
  eexists _, _. split; [vm_compute; reflexivity|].
  split; [vm_compute; reflexivity|].
  apply (announced_headers_are_keys repr_dotted strip_nothing parse_no_int
           parse_no_float lower_nothing "stock.xlsx" sheet_header sheet_rows);
    vm_compute; reflexivity.
Defined.

(** The answer of [get_sample_data]: the items in ascending order, and the
    grand totals 29, 1360, 160.4 and 179.75. *)
Example sample_report :
  match get_sample_data with
  | Ok res =>
      (subtotals res).*1
        = [VStr "ADAPTER"; VStr "CABLE"; VStr "POWER SUPPLY"] ∧
      grand_total res !! "CTNS" = Some (VInt 29) ∧
      grand_total res !! "TOTAL" = Some (VInt 1360) ∧
      grand_total res !! "TOTAL NW" = Some (VFloat 0x1.40ccccccccccdp+7) ∧
      grand_total res !! "TOTAL GW" = Some (VFloat 179.75)
  | _ => False
  end.
Proof. vm_compute. by repeat split. Qed.

End RoutesSpec.

(** ** What the document handlers answer *)

Module DocumentsSpec.
Import MoreTerms Excel Documents StringFacts.

Section documents.
Context {V : Type}.
Variable truthy : V → bool.
Variable as_str : V → option string.
Variable lower : string → string.
Variable now : string.

(** The loop stops at the first required field that is missing or false. *)
Lemma first_missing_Some required_fields (data : gmap string V) field :
  first_missing truthy required_fields data = Some field →
  ∃ pre post, required_fields = pre ++ field :: post ∧
    Forall (λ f, lacks truthy data f = false) pre ∧
    lacks truthy data field = true.
Proof.
  induction required_fields as [|f rest IH]; [done|]. cbn [first_missing].
  destruct (lacks truthy data f) eqn:Hf.
  - intros [= <-]. by exists [], rest.
  - intros (pre & post & -> & Hpre & Hfield)%IH.
    exists (f :: pre), post. split; [done|]. split; [by constructor|done].
Qed.

Lemma first_missing_None required_fields (data : gmap string V) :
  first_missing truthy required_fields data = None →
  Forall (λ f, ∃ v, data !! f = Some v ∧ truthy v = true) required_fields.
Proof.
  induction required_fields as [|f rest IH]; [constructor|].
  cbn [first_missing]. unfold lacks at 1.
  destruct (data !! f) as [v|] eqn:Hv; [|done].
  destruct (truthy v) eqn:Ht; [|done]. cbn. intros Hrest.
  constructor; [by exists v|by apply IH].
Qed.

Lemma answer_with_Refused required_fields result (data : gmap string V) error :
  answer_with truthy required_fields result data = Refused error →
  ∃ pre field post, required_fields = pre ++ field :: post ∧
    Forall (λ f, lacks truthy data f = false) pre ∧
    lacks truthy data field = true ∧
    error = "Missing required field: " +:+ field.
Proof.
  unfold answer_with.
  destruct (first_missing _ _ _) as [field|] eqn:Hm.
  - intros [= <-]. destruct (first_missing_Some _ _ _ Hm)
      as (pre & post & ? & ? & ?). by exists pre, field, post.
  - by destruct (result data).
Qed.

Ltac lookups Hm :=
  repeat (apply Forall_cons in Hm as [(? & ? & ?) Hm]).

Ltac use_lookups Hans :=
  repeat match goal with
         | H : ?data !! ?f = Some _ |- _ =>
             rewrite H in Hans; cbn [mbind option_bind] in Hans
         end.

Ltac document_handler :=
  let data := fresh "data" in
  let Hans := fresh "Hans" in
  let Hm := fresh "Hm" in
  intros data;
  match goal with
  | |- match ?h data with _ => _ end => destruct (h data) eqn:Hans
  end;
  [ unfold answer_with in Hans;
    destruct (first_missing _ _ _) eqn:Hm; [done|];
    apply first_missing_None in Hm; lookups Hm; use_lookups Hans;
    injection Hans as <-;
    split; [|by repeat split];
    repeat apply Forall_cons_2; [..|apply Forall_nil_2];
    (eexists; split; [eassumption|split; [eassumption|reflexivity]])
  | by apply answer_with_Refused in Hans
  | unfold answer_with in Hans;
    destruct (first_missing _ _ _) eqn:Hm; [done|];
    apply first_missing_None in Hm; lookups Hm; use_lookups Hans;
    done ].

(** X16. Each of the six document handlers, for a JSON object as body:
    with status 200 the answer holds every required field of the body, each
    of them true, under its key, and the document type, the time and the
    status "processed"; status 400 names the first required field, in the
    order of the handler's list, that is missing or false; there is no
    status 500. *)
Theorem document_answers :
  Forall (λ '(handler, doc_type, fields),
            answers_as truthy now handler doc_type fields)
         (document_handlers truthy now).
Proof.
  unfold document_handlers.
  repeat apply Forall_cons_2; [..|apply Forall_nil_2]; unfold answers_as.
  - unfold process_proforma_invoice. document_handler.
  - unfold process_lc_document. document_handler.
  - unfold process_packing_list. document_handler.
  - unfold process_commercial_invoice. document_handler.
  - unfold process_value_sheet. document_handler.
  - unfold process_loading_list. document_handler.
Qed.

(** *** New document types *)


End documents.

End DocumentsSpec.

(** ** More on the DataFrame report *)

Module FrameSpec.
Import DataStructure DataStructureSpec RunFacts MoreTerms.

Section frame.
Context {num : Type} (mul : num → num → num) (col_sum : list num → num).
Context (sort_values : list (row num) → list (row num)).
Hypothesis sort_values_perm : ∀ df, sort_values df ≡ₚ df.
Hypothesis sort_values_sorted : ∀ df, StronglySorted item_le (sort_values df).

(** The assembly loop writes one block per distinct item. *)
Lemma report_blocks (df : list (row num)) :
  sort_and_subtotal col_sum sort_values df
  = concat ((λ k, let item_data := filter (λ r, ITEM r = k) (sort_values df) in
                  (DataRow <$> item_data)
                  ++ [TotalsRow (sums col_sum (k +:+ " Subtotal") item_data)])
            <$> unique (ITEM <$> sort_values df))
    ++ [TotalsRow (sums col_sum "Grand Total" (sort_values df))].
Proof.
  unfold sort_and_subtotal. rewrite foldl_blocks. cbn [app]. f_equal. f_equal.
  apply list_fmap_ext. intros i k Hk%list_elem_of_lookup_2. cbv zeta. f_equal.
  unfold groupby_sum.
  assert (NoDup (merge_sort String.le (unique (ITEM <$> sort_values df))))
    as Hnodup.
  { rewrite merge_sort_Permutation. apply NoDup_unique. }
  rewrite (filter_label col_sum sort_values sort_values_perm sort_values_sorted
             (λ k, filter (λ r, ITEM r = k) (sort_values df)) _ k Hnodup).
  rewrite decide_True; [done|]. by rewrite merge_sort_Permutation.
Qed.

Lemma data_rows_app (report1 report2 : list (report_row num)) :
  data_rows (report1 ++ report2) = data_rows report1 ++ data_rows report2.
Proof. apply omap_app. Qed.

Lemma data_rows_data (rows : list (row num)) :
  data_rows (DataRow <$> rows) = rows.
Proof.
  unfold data_rows. induction rows as [|r rows IH]; csimpl; [done|].
  by rewrite IH.
Qed.

Lemma data_rows_blocks (block : string → list (row num))
    (total : string → totals_row num) keys :
  data_rows (concat ((λ k, (DataRow <$> block k) ++ [TotalsRow (total k)])
                       <$> keys))
  = concat (block <$> keys).
Proof.
  induction keys as [|k keys IH]; csimpl; [done|].
  rewrite !data_rows_app, data_rows_data, IH. by rewrite app_nil_r.
Qed.

Lemma length_blocks (block : string → list (row num))
    (total : string → totals_row num) keys :
  length (concat ((λ k, (DataRow <$> block k) ++ [TotalsRow (total k)])
                    <$> keys))
  = (length (concat (block <$> keys)) + length keys)%nat.
Proof.
  induction keys as [|k keys IH]; csimpl; [done|].
  rewrite !length_app, length_fmap, IH. cbn [length]. lia.
Qed.

(** Without its totals rows the report is the sorted frame. *)
Lemma report_data_rows (df : list (row num)) :
  data_rows (sort_and_subtotal col_sum sort_values df) = sort_values df.
Proof.
  rewrite report_blocks, data_rows_app.
  rewrite (data_rows_blocks (λ k, filter (λ r, ITEM r = k) (sort_values df))
             (λ k, sums col_sum (k +:+ " Subtotal")
                        (filter (λ r, ITEM r = k) (sort_values df)))).
  rewrite (concat_runs ITEM) by apply sort_values_sorted.
  apply app_nil_r.
Qed.

(** X18. For a [sort_values] that returns the rows in ascending order
    of [ITEM]: the report of the DataFrame script without its totals rows is
    the sorted frame, so no row is lost, repeated or moved by the assembly;
    the report has one row per input row, one per distinct [ITEM] and one
    more. *)
Theorem report_keeps_the_rows (df : list (row num)) :
  let report := sort_and_subtotal col_sum sort_values df in
  data_rows report = sort_values df ∧
  length report
  = (length df + length (unique (ITEM <$> sort_values df)) + 1)%nat.
Proof.
  intros report. split; [apply report_data_rows|].
  unfold report. rewrite report_blocks, length_app.
  rewrite (length_blocks (λ k, filter (λ r, ITEM r = k) (sort_values df))
             (λ k, sums col_sum (k +:+ " Subtotal")
                        (filter (λ r, ITEM r = k) (sort_values df)))).
  rewrite (concat_runs ITEM) by apply sort_values_sorted.
  by rewrite (Permutation_length (sort_values_perm df)).
Qed.

(** X19. The derivation of the DataFrame script is idempotent, and
    in the script's pipeline, derivation and then report, every data row of
    the report holds the products of its own source columns in [TOTAL],
    [TOTAL NW] and [TOTAL GW]. *)
Theorem derived_rows_reach_the_report (df : list (row num)) :
  process_data mul (process_data mul df) = process_data mul df ∧
  Forall (derived_row mul)
         (data_rows (sort_and_subtotal col_sum sort_values
                                       (process_data mul df))).
Proof.
  split; [apply frame_process_data_fixed|].
  rewrite report_data_rows, sort_values_perm.
  unfold process_data. rewrite Forall_fmap. apply Forall_forall.
  by intros r _.
Qed.

End frame.

Lemma report_keeps_the_rows_witness :
  let report := sort_and_subtotal (foldr Z.add 0) stable_sort sample_frame in
  data_rows report = stable_sort sample_frame ∧
  length report
  = (length sample_frame
     + length (unique (ITEM <$> stable_sort sample_frame)) + 1)%nat.
Proof.
  exact (report_keeps_the_rows (foldr Z.add 0) stable_sort
           stable_sort_perm stable_sort_sorted sample_frame).
Defined.

Lemma derived_rows_reach_the_report_witness :
  process_data Z.mul (process_data Z.mul sample_frame)
  = process_data Z.mul sample_frame ∧
  Forall (derived_row Z.mul)
         (data_rows (sort_and_subtotal (foldr Z.add 0) stable_sort
                                       (process_data Z.mul sample_frame))).
Proof.
  exact (derived_rows_reach_the_report Z.mul (foldr Z.add 0) stable_sort
           stable_sort_perm stable_sort_sorted sample_frame).
Defined.

End FrameSpec.
